(** * semantic_router/route.py: routes, their validation and persistence

    A shallow embedding of [semantic_router/route.py] and of the parts of
    the Python libraries it calls ([json], [re.search] on the one pattern
    the module uses, [os.path.splitext], [str.strip], [inspect.Signature]'s
    rendering, the validation of a [str] field by pydantic and with it
    [str] of a number), followed by the properties of the module.

    Conventions.
    - A Python [str] is a list of code points ([N]); [py "..."] writes an
      ASCII literal and [dq "..."] the same literal with every apostrophe
      read as a double quote, so that JSON texts stay readable.
    - A Python value reached by the module (what [json.loads] and
      [yaml.safe_load] hand back) is a [pyval].
    - A call that may raise returns a [result]; a call that also logs or
      touches the file system is a computation [M A] over a [world].
    - Interpreter limits (recursion depth, the digit limit of [int]) are
      outside the model, and so are the [yaml] library and the request
      to the completion endpoint: what they return is a parameter.
    - [Route] is a model of pydantic, version 1: its fields are
      validated as that version validates them. *)

From Stdlib Require Import List NArith ZArith Bool Lia String Ascii Permutation.
Import ListNotations.
Open Scope string_scope.
Open Scope list_scope.
Set Warnings "-register-all".

(* ================================================================= *)
(** ** Python strings *)

Definition str := list N.

Definition py (s : string) : str := map N_of_ascii (list_ascii_of_string s).

(** [dq "{'a': 1}"] is the text [{"a": 1}]. *)
Definition dq (s : string) : str :=
  map (fun c => if (c =? 39)%N then 34%N else c) (py s).

Fixpoint str_eqb (a b : str) : bool :=
  match a, b with
  | [], [] => true
  | x :: a', y :: b' => (x =? y)%N && str_eqb a' b'
  | _, _ => false
  end.

(** [s.startswith(p)] *)
Fixpoint startswith (p s : str) : bool :=
  match p, s with
  | [], _ => true
  | a :: p', b :: s' => (a =? b)%N && startswith p' s'
  | _ :: _, [] => false
  end.

(** [s] after the word [w], when [s] starts with it. *)
Fixpoint after (w s : str) : option str :=
  match w, s with
  | [], _ => Some s
  | a :: w', b :: s' => if (a =? b)%N then after w' s' else None
  | _ :: _, [] => None
  end.

(** [p in s] for two strings: [p] occurs in [s] as a substring. *)
Fixpoint contains (p s : str) : bool :=
  startswith p s || match s with [] => false | _ :: r => contains p r end.


(** [sep.join(parts)] *)
Fixpoint join (sep : str) (parts : list str) : str :=
  match parts with
  | [] => []
  | [p] => p
  | p :: rest => p ++ sep ++ join sep rest
  end.

(** [str.isspace] on one code point: the Unicode white space of CPython. *)
Definition isspace (c : N) : bool :=
  ((9 <=? c) && (c <=? 13) || (28 <=? c) && (c <=? 32) ||
   (c =? 133) || (c =? 160) || (c =? 5760) ||
   (8192 <=? c) && (c <=? 8202) || (c =? 8232) || (c =? 8233) ||
   (c =? 8239) || (c =? 8287) || (c =? 12288))%N.

Fixpoint lstrip (s : str) : str :=
  match s with
  | c :: r => if isspace c then lstrip r else s
  | [] => []
  end.

Definition rstrip (s : str) : str := rev (lstrip (rev s)).

(** [s.strip()] *)
Definition strip (s : str) : str := rstrip (lstrip s).

(* ================================================================= *)
(** ** Exceptions and results *)

(** The exception classes the module raises or lets through.  Those
    raised by the module carry its message; those raised by the
    interpreter or a library carry none. *)
Inductive exn : Type :=
| JSONDecodeError
| TypeError
| AttributeError
| KeyError
| ValidationError
| FileNotFoundError
| YAMLError
| ValueError (msg : str)
| Exception (msg : str).

Inductive result (A : Type) : Type :=
| Ok (a : A)
| Raise (e : exn).
Arguments Ok {A} a.
Arguments Raise {A} e.

Definition rbind {A B} (r : result A) (k : A -> result B) : result B :=
  match r with
  | Ok a => k a
  | Raise e => Raise e
  end.

(** A comprehension [[f(x) for x in l]]: left to right, the first
    exception ends it. *)
Fixpoint rmap {A B} (f : A -> result B) (l : list A) : result (list B) :=
  match l with
  | [] => Ok []
  | x :: r => rbind (f x) (fun y => rbind (rmap f r) (fun ys => Ok (y :: ys)))
  end.

(* ================================================================= *)
(** ** Python values *)

(** What [json.loads] builds.  A number is kept as the literal that
    denotes it: the module never computes with numbers, it meets them
    as values that are neither iterable nor mappings, and as values of
    fields, which the validation turns into their [str]
    ([Number.to_str] below).  A [dict] is the list of its items in
    insertion order, its keys distinct. *)
Inductive pyval : Type :=
| JNull
| JBool (b : bool)
| JNumber (literal : str)
| JString (s : str)
| JList (l : list pyval)
| JDict (d : list (str * pyval)).

Fixpoint dict_has (k : str) (d : list (str * pyval)) : bool :=
  match d with
  | [] => false
  | (k', _) :: r => str_eqb k' k || dict_has k r
  end.

Fixpoint dict_get (k : str) (d : list (str * pyval)) : option pyval :=
  match d with
  | [] => None
  | (k', v) :: r => if str_eqb k' k then Some v else dict_get k r
  end.

(** [d[k] = v]: an existing key keeps its place. *)
Fixpoint dict_set (k : str) (v : pyval) (d : list (str * pyval))
  : list (str * pyval) :=
  match d with
  | [] => [(k, v)]
  | (k', v') :: r =>
      if str_eqb k' k then (k', v) :: r else (k', v') :: dict_set k v r
  end.

(** [dict(pairs)] *)
Definition dict_of_pairs (pairs : list (str * pyval)) : list (str * pyval) :=
  fold_left (fun d kv => dict_set (fst kv) (snd kv) d) pairs [].

(** [key in x], for a string [key]: membership among the keys of a
    dict, among the elements of a list, as a substring of a string;
    [TypeError] on a value that is not iterable. *)
Definition py_in (key : str) (x : pyval) : result bool :=
  match x with
  | JDict d => Ok (dict_has key d)
  | JList l =>
      Ok (existsb (fun e => match e with
                            | JString s => str_eqb s key
                            | _ => false
                            end) l)
  | JString s => Ok (contains key s)
  | JNull | JBool _ | JNumber _ => Raise TypeError
  end.

(** [for x in v]: the elements of a list, the keys of a dict, the
    characters of a string. *)
Definition py_iter (v : pyval) : result (list pyval) :=
  match v with
  | JList l => Ok l
  | JDict d => Ok (map (fun kv => JString (fst kv)) d)
  | JString s => Ok (map (fun c => JString [c]) s)
  | JNull | JBool _ | JNumber _ => Raise TypeError
  end.

(* ================================================================= *)
(** ** The [json] library

    [json.dumps] with its defaults ([ensure_ascii], separators [", "] and
    [": "]) and [json.loads] with its defaults ([strict], the C scanner's
    reading of [\uXXXX]).

    Characters are written as their code points: 34 the double quote,
    92 the backslash, 47 the slash, 123 and 125 the braces, 91 and 93
    the brackets, 44 the comma, 58 the colon, 45 the minus sign, 43 the
    plus sign, 46 the dot, 48 to 57 the digits, 101 and 69 the letters
    e and E, 117 the letter u, 110, 116, 102, 78 and 73 the first
    letters of [null], [true], [false], [NaN] and [Infinity], 32, 9,
    10 and 13 the white space, 65279 the byte order mark. *)

Module Json.

Local Open Scope N_scope.

(** *** Encoder *)

Definition hexdigit (d : N) : N :=
  if d <? 10 then 48 + d else 87 + d.

(** ['\\u{0:04x}'.format(n)] *)
Definition escape_u (n : N) : str :=
  [92; 117; hexdigit (n / 4096 mod 16); hexdigit (n / 256 mod 16);
   hexdigit (n / 16 mod 16); hexdigit (n mod 16)].

(** The replacement of one character by [py_encode_basestring_ascii];
    the shifts and masks of the surrogate pair are written as the
    divisions they are. *)
Definition escape_char (c : N) : str :=
  if c =? 34 then [92; 34]
  else if c =? 92 then [92; 92]
  else if c =? 10 then [92; 110]
  else if c =? 13 then [92; 114]
  else if c =? 9 then [92; 116]
  else if c =? 8 then [92; 98]
  else if c =? 12 then [92; 102]
  else if (32 <=? c) && (c <=? 126) then [c]
  else if c <? 65536 then escape_u c
  else escape_u (55296 + (c - 65536) / 1024 mod 1024) ++
       escape_u (56320 + (c - 65536) mod 1024).

Definition encode_string (s : str) : str :=
  34 :: flat_map escape_char s ++ [34].

Fixpoint dumps (v : pyval) : str :=
  match v with
  | JNull => py "null"
  | JBool true => py "true"
  | JBool false => py "false"
  | JNumber lit => lit
  | JString s => encode_string s
  | JList l => 91 :: join (py ", ") (map dumps l) ++ [93]
  | JDict d =>
      123 :: join (py ", ")
               (map (fun kv => encode_string (fst kv) ++ py ": " ++ dumps (snd kv)) d)
          ++ [125]
  end.

(** *** Decoder *)

Definition is_ws (c : N) : bool :=
  (c =? 32) || (c =? 9) || (c =? 10) || (c =? 13).

Fixpoint skip_ws (s : str) : str :=
  match s with
  | c :: r => if is_ws c then skip_ws r else s
  | [] => []
  end.

Definition hexval (c : N) : option N :=
  if (48 <=? c) && (c <=? 57) then Some (c - 48)
  else if (97 <=? c) && (c <=? 102) then Some (c - 87)
  else if (65 <=? c) && (c <=? 70) then Some (c - 55)
  else None.

Definition hex4 (a b c d : N) : option N :=
  match hexval a, hexval b, hexval c, hexval d with
  | Some x, Some y, Some z, Some w => Some (4096 * x + 256 * y + 16 * z + w)
  | _, _, _, _ => None
  end.

Definition unescape (e : N) : option N :=
  if e =? 34 then Some 34
  else if e =? 92 then Some 92
  else if e =? 47 then Some 47
  else if e =? 98 then Some 8
  else if e =? 102 then Some 12
  else if e =? 110 then Some 10
  else if e =? 114 then Some 13
  else if e =? 116 then Some 9
  else None.

Definition is_high_surrogate (u : N) : bool := (55296 <=? u) && (u <=? 56319).
Definition is_low_surrogate (u : N) : bool := (56320 <=? u) && (u <=? 57343).

Definition cons_char (c : N) (r : option (str * str)) : option (str * str) :=
  match r with
  | Some (s, rest) => Some (c :: s, rest)
  | None => None
  end.

(** [scanstring], from the character after the opening quote: the
    decoded string and the text after the closing quote. *)
Fixpoint scanstring (s : str) : option (str * str) :=
  match s with
  | [] => None
  | c :: r =>
      if c =? 34 then Some ([], r)
      else if c =? 92 then
        match r with
        | [] => None
        | e :: r1 =>
            if e =? 117 then
              match r1 with
              | h1 :: h2 :: h3 :: h4 :: r2 =>
                  match hex4 h1 h2 h3 h4 with
                  | None => None
                  | Some u =>
                      if is_high_surrogate u then
                        match r2 with
                        | b :: r3 =>
                            if b =? 92 then
                              match r3 with
                              | u' :: r4 =>
                                  if u' =? 117 then
                                    match r4 with
                                    | g1 :: g2 :: g3 :: g4 :: r5 =>
                                        match hex4 g1 g2 g3 g4 with
                                        | None => None
                                        | Some u2 =>
                                            if is_low_surrogate u2 then
                                              cons_char
                                                (65536 + ((u - 55296) * 1024
                                                          + (u2 - 56320)))
                                                (scanstring r5)
                                            else cons_char u (scanstring r2)
                                        end
                                    | _ => None
                                    end
                                  else cons_char u (scanstring r2)
                              | [] => None
                              end
                            else cons_char u (scanstring r2)
                        | [] => None
                        end
                      else cons_char u (scanstring r2)
                  end
              | _ => None
              end
            else
              match unescape e with
              | Some ch => cons_char ch (scanstring r1)
              | None => None
              end
        end
      else if c <? 32 then None
      else cons_char c (scanstring r)
  end.

Definition is_digit (c : N) : bool := (48 <=? c) && (c <=? 57).

(** The longest run of digits at the head of [s]. *)
Fixpoint span_digits (s : str) : str * str :=
  match s with
  | c :: r =>
      if is_digit c then let (ds, rest) := span_digits r in (c :: ds, rest)
      else ([], s)
  | [] => ([], [])
  end.

(** The integer part of [NUMBER_RE]: an optional minus sign, then
    either a single zero or a non-zero digit and the digits after it. *)
Definition scan_int (s : str) : option (str * str) :=
  let (sign, s1) := match s with
                    | c :: r => if c =? 45 then ([45], r) else ([], s)
                    | [] => ([], s)
                    end in
  match s1 with
  | c :: r =>
      if c =? 48 then Some (sign ++ [48], r)
      else if is_digit c then
        let (ds, rest) := span_digits r in Some (sign ++ c :: ds, rest)
      else None
  | [] => None
  end.

(** The optional fraction: a dot and at least one digit. *)
Definition scan_frac (s : str) : str * str :=
  match s with
  | c :: r =>
      if c =? 46 then
        match span_digits r with
        | ([], _) => ([], s)
        | (ds, rest) => (46 :: ds, rest)
        end
      else ([], s)
  | [] => ([], s)
  end.

(** The optional exponent: [e] or [E], an optional sign, at least one
    digit. *)
Definition scan_exp (s : str) : str * str :=
  match s with
  | c :: r =>
      if (c =? 101) || (c =? 69) then
        let (sign, r1) := match r with
                          | g :: r' =>
                              if (g =? 45) || (g =? 43) then ([g], r') else ([], r)
                          | [] => ([], r)
                          end in
        match span_digits r1 with
        | ([], _) => ([], s)
        | (ds, rest) => (c :: sign ++ ds, rest)
        end
      else ([], s)
  | [] => ([], s)
  end.

(** [NUMBER_RE.match]: the literal and the text after it. *)
Definition scan_number (s : str) : option (str * str) :=
  match scan_int s with
  | None => None
  | Some (i, r) =>
      let (f, r1) := scan_frac r in
      let (e, r2) := scan_exp r1 in
      Some (i ++ f ++ e, r2)
  end.

Inductive parsed (A : Type) : Type :=
| Parsed (a : A) (rest : str)
| Malformed
| OutOfFuel.
Arguments Parsed {A} a rest.
Arguments Malformed {A}.
Arguments OutOfFuel {A}.

(** [scan_once] at the first character of a value, and the loops of
    [JSONArray] (from the first character of an element) and of
    [JSONObject] (from the quote that opens a key). *)
Fixpoint parse_value (fuel : nat) (s : str) : parsed pyval :=
  match fuel with
  | O => OutOfFuel
  | S f =>
      match s with
      | [] => Malformed
      | c :: r =>
          if c =? 34 then
            match scanstring r with
            | Some (x, rest) => Parsed (JString x) rest
            | None => Malformed
            end
          else if c =? 123 then
            match skip_ws r with
            | c1 :: r1 =>
                if c1 =? 125 then Parsed (JDict []) r1
                else
                  match parse_members f (c1 :: r1) with
                  | Parsed pairs rest => Parsed (JDict (dict_of_pairs pairs)) rest
                  | Malformed => Malformed
                  | OutOfFuel => OutOfFuel
                  end
            | [] => Malformed
            end
          else if c =? 91 then
            match skip_ws r with
            | c1 :: r1 =>
                if c1 =? 93 then Parsed (JList []) r1
                else
                  match parse_elems f (c1 :: r1) with
                  | Parsed l rest => Parsed (JList l) rest
                  | Malformed => Malformed
                  | OutOfFuel => OutOfFuel
                  end
            | [] => Malformed
            end
          else if c =? 110 then
            match after (py "ull") r with
            | Some rest => Parsed JNull rest
            | None => Malformed
            end
          else if c =? 116 then
            match after (py "rue") r with
            | Some rest => Parsed (JBool true) rest
            | None => Malformed
            end
          else if c =? 102 then
            match after (py "alse") r with
            | Some rest => Parsed (JBool false) rest
            | None => Malformed
            end
          else if c =? 78 then
            match after (py "aN") r with
            | Some rest => Parsed (JNumber (py "NaN")) rest
            | None => Malformed
            end
          else if c =? 73 then
            match after (py "nfinity") r with
            | Some rest => Parsed (JNumber (py "Infinity")) rest
            | None => Malformed
            end
          else
            match (if c =? 45 then after (py "Infinity") r else None) with
            | Some rest => Parsed (JNumber (py "-Infinity")) rest
            | None =>
                match scan_number s with
                | Some (lit, rest) => Parsed (JNumber lit) rest
                | None => Malformed
                end
            end
      end
  end

with parse_elems (fuel : nat) (s : str) : parsed (list pyval) :=
  match fuel with
  | O => OutOfFuel
  | S f =>
      match parse_value f s with
      | Parsed v rest =>
          match skip_ws rest with
          | c :: r =>
              if c =? 93 then Parsed [v] r
              else if c =? 44 then
                match parse_elems f (skip_ws r) with
                | Parsed l rest' => Parsed (v :: l) rest'
                | Malformed => Malformed
                | OutOfFuel => OutOfFuel
                end
              else Malformed
          | [] => Malformed
          end
      | Malformed => Malformed
      | OutOfFuel => OutOfFuel
      end
  end

with parse_members (fuel : nat) (s : str) : parsed (list (str * pyval)) :=
  match fuel with
  | O => OutOfFuel
  | S f =>
      match s with
      | c :: r =>
          if c =? 34 then
            match scanstring r with
            | Some (k, r1) =>
                match skip_ws r1 with
                | c2 :: r2 =>
                    if c2 =? 58 then
                      match parse_value f (skip_ws r2) with
                      | Parsed v r3 =>
                          match skip_ws r3 with
                          | c4 :: r4 =>
                              if c4 =? 125 then Parsed [(k, v)] r4
                              else if c4 =? 44 then
                                match parse_members f (skip_ws r4) with
                                | Parsed l rest => Parsed ((k, v) :: l) rest
                                | Malformed => Malformed
                                | OutOfFuel => OutOfFuel
                                end
                              else Malformed
                          | [] => Malformed
                          end
                      | Malformed => Malformed
                      | OutOfFuel => OutOfFuel
                      end
                    else Malformed
                | [] => Malformed
                end
            | None => Malformed
            end
          else Malformed
      | [] => Malformed
      end
  end.

(** [json.loads(s)]: a leading byte order mark is refused, white space
    around the one value is skipped, anything after it is an error.
    The fuel is more than any text needs ([parse_fuel] below). *)
Definition loads (s : str) : result pyval :=
  if startswith [65279] s then Raise JSONDecodeError
  else
    match parse_value (2 * List.length s + 2) (skip_ws s) with
    | Parsed v rest =>
        match skip_ws rest with
        | [] => Ok v
        | _ :: _ => Raise JSONDecodeError
        end
    | Malformed | OutOfFuel => Raise JSONDecodeError
    end.

End Json.

(* ================================================================= *)
(** ** [str] of a number

    [json.loads] reads a literal without fraction and exponent as an
    [int] and any other as a [float] (correctly rounded, to nearest and
    to even on a tie; [inf] beyond the range).  [str] of an [int] is its
    decimal writing.  [str] of a [float] is [float.__repr__]: the
    shortest digits that read back as the same float, the nearest to
    it among the shortest, in exponent form when the float is at least
    [1e16] or less than [1e-4] in absolute value. *)

Module Number.

Local Open Scope Z_scope.

Definition digits_value (ds : str) : Z :=
  fold_left (fun acc c => 10 * acc + (Z.of_N c - 48)) ds 0.

Fixpoint decimal_from (fuel : nat) (n : Z) (acc : str) : str :=
  match fuel with
  | O => acc
  | S f =>
      let acc' := Z.to_N (48 + n mod 10) :: acc in
      if n <? 10 then acc' else decimal_from f (n / 10) acc'
  end.

(** The decimal writing of a natural number. *)
Definition decimal (n : Z) : str :=
  decimal_from (S (Z.to_nat (Z.log2 n))) n [].

(** A literal of [NUMBER_RE] in its parts: the sign, the digits before
    the dot, the digits after it, the exponent. *)
Record literal : Type := mkLiteral {
  negative : bool;
  int_digits : str;
  frac_digits : option str;
  exponent : option Z
}.

Definition split_literal (lit : str) : option literal :=
  match Json.scan_int lit with
  | None => None
  | Some (i, r) =>
      let (f, r1) := Json.scan_frac r in
      let (e, _) := Json.scan_exp r1 in
      let (neg, ds) := match i with
                       | c :: i' => if (c =? 45)%N then (true, i') else (false, i)
                       | [] => (false, i)
                       end in
      Some (mkLiteral neg ds
              (match f with _ :: fd => Some fd | [] => None end)
              (match e with
               | _ :: s :: ed =>
                   if (s =? 45)%N then Some (- digits_value ed)
                   else if (s =? 43)%N then Some (digits_value ed)
                   else Some (digits_value (s :: ed))
               | _ => None
               end))
  end.

(** A positive rational [num / den] against a power of two and of ten. *)
Definition below_pow (base num den l : Z) : bool :=
  if 0 <=? l then num <? den * base ^ l else num * base ^ (- l) <? den.

(** [floor (log2 (num / den))] *)
Definition floor_log2 (num den : Z) : Z :=
  let l := Z.log2 num - Z.log2 den in
  if below_pow 2 num den l then l - 1 else l.

(** [floor (log10 (num / den))]: an estimate from the binary logarithm,
    then at most two steps either way. *)
Definition floor_log10 (num den : Z) : Z :=
  let p := (floor_log2 num den * 30103) / 100000 in
  let p := if below_pow 10 num den p then p - 1 else p in
  let p := if below_pow 10 num den p then p - 1 else p in
  let p := if below_pow 10 num den (p + 1) then p else p + 1 in
  if below_pow 10 num den (p + 1) then p else p + 1.

(** Division rounded to nearest, to even on a tie. *)
Definition round_div (n d : Z) : Z :=
  let q := n / d in
  let r := n mod d in
  if 2 * r <? d then q
  else if d <? 2 * r then q + 1
  else if Z.even q then q else q + 1.

(** A finite float of binary64 that is not zero is [m * 2 ^ e] with
    [2 ^ 52 <= m < 2 ^ 53] and [-1074 <= e <= 971], or [0 < m < 2 ^ 52]
    and [e = -1074]. *)
Inductive float : Type :=
| Finite (neg : bool) (m e : Z)
| Inf (neg : bool)
| NaN.

(** The float nearest to the positive rational [num / den]: its
    mantissa and exponent, or [None] beyond the range. *)
Definition nearest (num den : Z) : option (Z * Z) :=
  let e := Z.max (floor_log2 num den - 52) (-1074) in
  let m := if 0 <=? e then round_div num (den * 2 ^ e)
           else round_div (num * 2 ^ (- e)) den in
  let (m, e) := if m =? 2 ^ 53 then (2 ^ 52, e + 1) else (m, e) in
  if 971 <? e then None else Some (m, e).

(** [d * 10 ^ x] as a fraction. *)
Definition scaled (d x : Z) : Z * Z :=
  if 0 <=? x then (d * 10 ^ x, 1) else (d, 10 ^ (- x)).

(** [float(lit)] for a literal with a fraction or an exponent. *)
Definition to_float (l : literal) : float :=
  let fd := match frac_digits l with Some fd => fd | None => [] end in
  let d := digits_value (int_digits l ++ fd) in
  let x := match exponent l with Some x => x | None => 0 end
           - Z.of_nat (List.length fd) in
  if d =? 0 then Finite (negative l) 0 0
  else
    let (num, den) := scaled d x in
    match nearest num den with
    | Some (m, e) => Finite (negative l) m e
    | None => Inf (negative l)
    end.

(** Whether the decimal [c * 10 ^ k] reads back as [m * 2 ^ e]. *)
Definition reads_as (m e c k : Z) : bool :=
  let (num, den) := scaled c k in
  match nearest num den with
  | Some (m', e') => (m' =? m) && (e' =? e)
  | None => false
  end.

(** The shortest decimal [c * 10 ^ k] that reads back as [m * 2 ^ e],
    tried with [n] digits, then [n + 1], up to 17; [p] is
    [floor (log10 (m * 2 ^ e))]. *)
Fixpoint shortest (fuel : nat) (n : Z) (m e num den p : Z) : Z * Z :=
  let k := p - n + 1 in
  let (tn, td) := if 0 <=? k then (num, den * 10 ^ k) else (num * 10 ^ (- k), den) in
  let lo := tn / td in
  let r := tn mod td in
  let nearer := if 2 * r <? td then lo
                else if td <? 2 * r then lo + 1
                else if Z.even lo then lo else lo + 1 in
  match fuel with
  | O => (nearer, k)
  | S f =>
      if r =? 0 then (lo, k)
      else
        let lo_ok := reads_as m e lo k in
        let hi_ok := reads_as m e (lo + 1) k in
        if lo_ok && hi_ok then (nearer, k)
        else if lo_ok then (lo, k)
        else if hi_ok then (lo + 1, k)
        else shortest f (n + 1) m e num den p
  end.

Fixpoint strip_zeros (fuel : nat) (c k : Z) : Z * Z :=
  match fuel with
  | O => (c, k)
  | S f => if c mod 10 =? 0 then strip_zeros f (c / 10) (k + 1) else (c, k)
  end.

Definition zeros (n : Z) : str := repeat 48%N (Z.to_nat n).

(** The digits [ds] with the decimal point [decpt] places after the
    first of them, as [repr] lays them out. *)
Definition layout (ds : str) (decpt : Z) : str :=
  if (decpt <=? -4) || (16 <? decpt) then
    let x := decpt - 1 in
    let mantissa := match ds with
                    | d :: (_ :: _) as rest => d :: 46%N :: rest
                    | _ => ds
                    end in
    mantissa ++ [101%N] ++ (if x <? 0 then [45%N] else [43%N])
      ++ (if Z.abs x <? 10 then [48%N] else []) ++ decimal (Z.abs x)
  else if decpt <=? 0 then
    [48%N; 46%N] ++ zeros (- decpt) ++ ds
  else
    let n := Z.of_nat (List.length ds) in
    if n <=? decpt then ds ++ zeros (decpt - n) ++ [46%N; 48%N]
    else firstn (Z.to_nat decpt) ds ++ [46%N] ++ skipn (Z.to_nat decpt) ds.

(** [repr(x)] of a float. *)
Definition repr (x : float) : str :=
  match x with
  | NaN => py "nan"
  | Inf neg => (if neg then [45%N] else []) ++ py "inf"
  | Finite neg m e =>
      (if neg then [45%N] else []) ++
      if m =? 0 then py "0.0"
      else
        let (num, den) := if 0 <=? e then (m * 2 ^ e, 1) else (m, 2 ^ (- e)) in
        let p := floor_log10 num den in
        let (c, k) := shortest 16 1 m e num den p in
        let (c, k) := strip_zeros 17 c k in
        let ds := decimal c in
        layout ds (Z.of_nat (List.length ds) + k)
  end.

(** [str(json.loads(lit))] for the literal of a number. *)
Definition to_str (lit : str) : str :=
  if str_eqb lit (py "NaN") then repr NaN
  else if str_eqb lit (py "Infinity") then repr (Inf false)
  else if str_eqb lit (py "-Infinity") then repr (Inf true)
  else
    match split_literal lit with
    | Some l =>
        match frac_digits l, exponent l with
        | None, None =>
            if digits_value (int_digits l) =? 0 then py "0" else lit
        | _, _ => repr (to_float l)
        end
    | None => lit
    end.

End Number.

(* ================================================================= *)
(** ** [re.search] with the pattern of the module

    [config_pattern = r"<config>(.*?)</config>"], searched with
    [re.DOTALL]: the leftmost position where the opening tag stands and
    a closing tag follows; the group is the shortest text between the
    two (the star is lazy, the dot matches every character). *)

Module Re.

Definition open_tag : str := py "<config>".
Definition close_tag : str := py "</config>".

(** The tail [(.*?)</config>] of the pattern, matched at the head of
    [s]: the group, grown one character at a time until the closing tag
    stands. *)
Fixpoint lazy_group (s : str) : option str :=
  if startswith close_tag s then Some []
  else match s with
       | [] => None
       | c :: r => option_map (cons c) (lazy_group r)
       end.

(** The pattern matched at the head of [s]. *)
Definition match_here (s : str) : option str :=
  match after open_tag s with
  | Some r => lazy_group r
  | None => None
  end.

(** [re.search(config_pattern, s, re.DOTALL)], as [group(1)] of the
    match found. *)
Fixpoint search (s : str) : option str :=
  match match_here s with
  | Some g => Some g
  | None => match s with
            | [] => None
            | _ :: r => search r
            end
  end.

End Re.

(* ================================================================= *)
(** ** [os.path.splitext] (posixpath) *)

Module Os_path.

Fixpoint rfind_from (c : N) (s : str) (i last : Z) : Z :=
  match s with
  | [] => last
  | x :: r => rfind_from c r (i + 1) (if (x =? c)%N then i else last)
  end.

(** [s.rfind(c)]: the last index of [c], or [-1].  Below, 47 is the
    slash and 46 the dot. *)
Definition rfind (c : N) (s : str) : Z := rfind_from c s 0 (-1).

(** [p[i:j]] for indices within [p]. *)
Definition slice (p : str) (i j : Z) : str :=
  firstn (Z.to_nat (j - i)) (skipn (Z.to_nat i) p).

(** [genericpath._splitext(p, '/', None, '.')]: the extension starts at
    the last dot of the last path component, unless only dots stand
    before it in that component. *)
Definition splitext (p : str) : str * str :=
  let sepIndex := rfind 47 p in
  let dotIndex := rfind 46 p in
  if (sepIndex <? dotIndex)%Z then
    if existsb (fun c => negb (c =? 46)%N) (slice p (sepIndex + 1) dotIndex)
    then (firstn (Z.to_nat dotIndex) p, skipn (Z.to_nat dotIndex) p)
    else (p, [])
  else (p, []).

End Os_path.

(* ================================================================= *)
(** ** The world: files and the log *)

Inductive level : Type := INFO | WARNING | ERROR.

(** What is handed to the logger: a text, or an exception to print. *)
Inductive log_msg : Type :=
| Text (s : str)
| OfExn (e : exn).

(** [write_error] is what [open(path, "w")] raises on a path that
    cannot be opened for writing (its directory is missing, it is a
    directory, the permission is denied), if it raises. *)
Record world : Type := mkWorld {
  files : str -> option str;
  logs : list (level * log_msg);
  write_error : str -> option exn
}.

Definition M (A : Type) : Type := world -> result A * world.

Definition ret {A} (a : A) : M A := fun w => (Ok a, w).

Definition raise {A} (e : exn) : M A := fun w => (Raise e, w).

Definition bind {A B} (c : M A) (k : A -> M B) : M B :=
  fun w => match c w with
           | (Ok a, w') => k a w'
           | (Raise e, w') => (Raise e, w')
           end.

Definition lift {A} (r : result A) : M A := fun w => (r, w).

Notation "x <- c ;; k" := (bind c (fun x => k))
  (at level 61, c at next level, right associativity).
Notation "c ;;; k" := (bind c (fun _ => k))
  (at level 61, right associativity).

Definition logger (l : level) (m : log_msg) : M unit :=
  fun w => (Ok tt, mkWorld (files w) (logs w ++ [(l, m)]) (write_error w)).

Definition set_file (path content : str) (fs : str -> option str)
  : str -> option str :=
  fun p => if str_eqb p path then Some content else fs p.

(** [open(path, "r")] and the reading of the whole file. *)
Definition open_read (path : str) : M str :=
  fun w => match files w path with
           | Some content => (Ok content, w)
           | None => (Raise FileNotFoundError, w)
           end.

(** [open(path, "w")]: the file is created or emptied, unless the
    path cannot be opened. *)
Definition open_write (path : str) : M unit :=
  fun w => match write_error w path with
           | Some e => (Raise e, w)
           | None =>
               (Ok tt, mkWorld (set_file path [] (files w)) (logs w)
                         (write_error w))
           end.

(** [f.write(text)] on the file opened at [path]. *)
Definition write (path text : str) : M unit :=
  fun w => let old := match files w path with Some c => c | None => [] end in
           (Ok tt, mkWorld (set_file path (old ++ text) (files w)) (logs w)
                     (write_error w)).

(** The outcome of a computation, and the world it leaves. *)
Definition outcome {A} (c : M A) (w : world) : result A := fst (c w).
Definition world_after {A} (c : M A) (w : world) : world := snd (c w).

(* ================================================================= *)
(** ** [is_valid] *)

Definition required_keys : list str := [py "name"; py "utterances"].

(** [[key for key in required_keys if key not in item]] *)
Fixpoint missing_keys_of (keys : list str) (item : pyval) : result (list str) :=
  match keys with
  | [] => Ok []
  | key :: rest =>
      rbind (py_in key item) (fun present =>
      rbind (missing_keys_of rest item) (fun ms =>
      Ok (if present then ms else key :: ms)))
  end.

Definition missing_keys_warning (missing_keys : list str) : log_msg :=
  Text (py "Missing keys in route config: " ++ join (py ", ") missing_keys).

(** The loop over the items of a list. *)
Fixpoint is_valid_items (items : list pyval) : M bool :=
  match items with
  | [] => ret true
  | item :: rest =>
      missing_keys <- lift (missing_keys_of required_keys item) ;;
      match missing_keys with
      | _ :: _ =>
          logger WARNING (missing_keys_warning missing_keys) ;;;
          ret false
      | [] => is_valid_items rest
      end
  end.

Definition is_valid (route_config : str) : M bool :=
  match Json.loads route_config with
  | Ok output_json =>
      match output_json with
      | JList items => is_valid_items items
      | _ =>
          missing_keys <- lift (missing_keys_of required_keys output_json) ;;
          match missing_keys with
          | _ :: _ =>
              logger WARNING (missing_keys_warning missing_keys) ;;;
              ret false
          | [] => ret true
          end
      end
  | Raise JSONDecodeError =>
      logger ERROR (OfExn JSONDecodeError) ;;;
      ret false
  | Raise e => raise e
  end.

(* ================================================================= *)
(** ** [Route] *)

(** The two things [_get_schema] asks of a default value: its truth
    value and its [repr]. *)
Record py_object : Type := mkObject {
  truthy : bool;
  repr : str
}.

(** An annotation, seen through [__name__] (absent on annotations such
    as [str | None]). *)
Record annotation : Type := mkAnnotation {
  dunder_name : option str
}.

(** An instance of a pydantic model, seen through the attributes
    [_get_schema] reads: [annotations] is [item.__annotations__], the
    annotations written in the class, and [fields] is
    [item.__fields__], all the fields of the model with their
    defaults, those it inherits among them. *)
Record model_instance : Type := mkModel {
  class_name : str;
  class_doc : option str;
  annotations : list (str * annotation);
  fields : list (str * py_object)
}.

Inductive param_kind : Type :=
| POSITIONAL_ONLY
| POSITIONAL_OR_KEYWORD
| VAR_POSITIONAL
| KEYWORD_ONLY
| VAR_KEYWORD.

(** A parameter of [inspect.signature(item)]; an annotation is given
    as [inspect.formatannotation] prints it, a default by its [repr]. *)
Record parameter : Type := mkParameter {
  param_name : str;
  kind : param_kind;
  param_annotation : option str;
  param_default : option str
}.

(** A return annotation, as [formatannotation] and as [str] print it. *)
Record return_annotation : Type := mkReturn {
  formatted : str;
  as_str : str
}.

(** A callable, seen through [__name__], [inspect.getdoc] and
    [inspect.signature]: one that has a name and a signature. *)
Record callable : Type := mkCallable {
  fn_name : str;
  fn_doc : option str;
  parameters : list parameter;
  returns : option return_annotation
}.

Inductive entity : Type :=
| Model (m : model_instance)
| Callable (f : callable).

(** The schema dict: [output] is present only for a callable. *)
Record schema : Type := mkSchema {
  schema_name : str;
  schema_description : option str;
  signature : str;
  output : option str
}.

Module Inspect.

(** [str(param)] of [inspect.Parameter]. *)
Definition format_parameter (p : parameter) : str :=
  let formatted :=
    match param_annotation p with
    | Some a => param_name p ++ py ": " ++ a
    | None => param_name p
    end in
  let formatted :=
    match param_default p with
    | Some d =>
        match param_annotation p with
        | Some _ => formatted ++ py " = " ++ d
        | None => formatted ++ py "=" ++ d
        end
    | None => formatted
    end in
  match kind p with
  | VAR_POSITIONAL => py "*" ++ formatted
  | VAR_KEYWORD => py "**" ++ formatted
  | _ => formatted
  end.

(** The loop of [Signature.format] over the parameters, with its two
    flags: the entries, among them the separators [/] and [*]. *)
Fixpoint format_entries (ps : list parameter)
    (render_pos_only_separator render_kw_only_separator : bool) : list str :=
  match ps with
  | [] => if render_pos_only_separator then [py "/"] else []
  | p :: rest =>
      let slash :=
        match kind p with
        | POSITIONAL_ONLY => []
        | _ => if render_pos_only_separator then [py "/"] else []
        end in
      let pos' :=
        match kind p with
        | POSITIONAL_ONLY => true
        | _ => false
        end in
      let star :=
        match kind p with
        | KEYWORD_ONLY => if render_kw_only_separator then [py "*"] else []
        | _ => []
        end in
      let kw' :=
        match kind p with
        | VAR_POSITIONAL | KEYWORD_ONLY => false
        | _ => render_kw_only_separator
        end in
      slash ++ star ++ format_parameter p :: format_entries rest pos' kw'
  end.

(** [str(inspect.signature(f))] *)
Definition format_signature (f : callable) : str :=
  let rendered :=
    py "(" ++ join (py ", ") (format_entries (parameters f) false true) ++ py ")" in
  match returns f with
  | Some a => rendered ++ py " -> " ++ formatted a
  | None => rendered
  end.

(** [str(inspect.signature(f).return_annotation)] *)
Definition return_annotation_str (f : callable) : str :=
  match returns f with
  | Some a => as_str a
  | None => py "<class 'inspect._empty'>"
  end.

End Inspect.

Module Route.

Record t : Type := mk {
  name : str;
  utterances : list str;
  description : option str
}.

(** [self.dict()] *)
Definition to_dict (self : t) : pyval :=
  JDict [ (py "name", JString (name self));
          (py "utterances", JList (map JString (utterances self)));
          (py "description", match description self with
                             | Some d => JString d
                             | None => JNull
                             end) ].

(** The validation of a [str] field ([str_validator]): a [str] is
    kept, an [int], a [float] or a [bool] (which is an [int]) is turned
    into its [str], anything else is refused. *)
Definition str_validator (v : pyval) : option str :=
  match v with
  | JString s => Some s
  | JNumber lit => Some (Number.to_str lit)
  | JBool true => Some (py "True")
  | JBool false => Some (py "False")
  | JNull | JList _ | JDict _ => None
  end.

(** The validation of the items of a [list[str]] field. *)
Fixpoint str_list (l : list pyval) : option (list str) :=
  match l with
  | [] => Some []
  | v :: r =>
      match str_validator v with
      | Some s => option_map (cons s) (str_list r)
      | None => None
      end
  end.

(** [cls] called on [data] unpacked by the double star, which needs a
    mapping.  The fields are validated as declared: [name] and
    [utterances] are required, [utterances] must be a list,
    [description] defaults to [None] and may be [None], other keys are
    ignored.  Whatever fails, the one exception is ValidationError. *)
Definition from_dict (data : pyval) : result t :=
  match data with
  | JDict d =>
      match dict_get (py "name") d, dict_get (py "utterances") d with
      | Some n, Some (JList us) =>
          match str_validator n, str_list us with
          | Some n, Some l =>
              match dict_get (py "description") d with
              | None | Some JNull => Ok (mk n l None)
              | Some v =>
                  match str_validator v with
                  | Some s => Ok (mk n l (Some s))
                  | None => Raise ValidationError
                  end
              end
          | _, _ => Raise ValidationError
          end
      | _, _ => Raise ValidationError
      end
  | _ => Raise TypeError
  end.

(** [item.__fields__[field_name].default] *)
Fixpoint dict_get_obj (k : str) (d : list (str * py_object)) : option py_object :=
  match d with
  | [] => None
  | (k', v) :: r => if str_eqb k' k then Some v else dict_get_obj k r
  end.

(** One entry of [signature_parts]. *)
Definition signature_part (m : model_instance) (field : str * annotation)
  : result str :=
  let (field_name, field_model) := field in
  match dict_get_obj field_name (fields m) with
  | None => Raise KeyError
  | Some default_value =>
      match dunder_name field_model with
      | None => Raise AttributeError
      | Some type_name =>
          if truthy default_value
          then Ok (field_name ++ py ": " ++ type_name ++ py " = " ++ repr default_value)
          else Ok (field_name ++ py ": " ++ type_name)
      end
  end.

Definition _get_schema (item : entity) : result schema :=
  match item with
  | Model m =>
      rbind (rmap (signature_part m) (annotations m)) (fun signature_parts =>
      Ok (mkSchema (class_name m) (class_doc m)
            (py "(" ++ join (py ", ") signature_parts ++ py ") -> str")
            None))
  | Callable f =>
      Ok (mkSchema (fn_name f)
            (Some (match fn_doc f with Some d => d | None => py "None" end))
            (Inspect.format_signature f)
            (Some (Inspect.return_annotation_str f)))
  end.

Definition no_tags_message : str :=
  py "No <config></config> tags found in the output.".

Definition _parse_route_config (config : str) : result str :=
  match Re.search config with
  | Some group1 => Ok (strip group1)
  | None => Raise (ValueError no_tags_message)
  end.

Section Synthesis.

(** The request to the completion endpoint is not modelled: the prompt
    built from the schema goes out, and [chat_completion] is what comes
    back as [completion.choices[0].message.content]. *)
Variable chat_completion : schema -> option str.

Definition _agenerate_dynamic_route (function_schema : schema) : M t :=
  logger INFO (Text (py "Generating dynamic route...")) ;;;
  match chat_completion function_schema with
  | None | Some [] => raise (Exception (py "No output generated"))
  | Some output =>
      route_config <- lift (_parse_route_config output) ;;
      logger INFO (Text (py "Generated route config:" ++ [10%N] ++ route_config)) ;;;
      ok <- is_valid route_config ;;
      if ok then lift (rbind (Json.loads route_config) from_dict)
      else raise (Exception (py "No config generated"))
  end.

Definition from_dynamic_route (entity : entity) : M t :=
  schema <- lift (_get_schema entity) ;;
  _agenerate_dynamic_route schema.

End Synthesis.

End Route.

(* ================================================================= *)
(** ** [RouteConfig] *)

Module RouteConfig.

Record t : Type := mk {
  routes : list Route.t
}.

Definition unsupported_message : str :=
  py "Unsupported file type. Only .json and .yaml are supported".

Definition to_dict (self : t) : pyval :=
  JList (map Route.to_dict (routes self)).

(** [self.routes.append(route)] *)
Definition add (self : t) (route : Route.t) : M t :=
  let self' := mk (routes self ++ [route]) in
  logger INFO (Text (py "Added route `" ++ Route.name route ++ py "`")) ;;;
  ret self'.

Definition not_found_message (name : str) : str :=
  py "Route `" ++ name ++ py "` not found".

Fixpoint get_from (rs : list Route.t) (name : str) : result Route.t :=
  match rs with
  | [] => Raise (Exception (not_found_message name))
  | route :: rest =>
      if str_eqb (Route.name route) name then Ok route else get_from rest name
  end.

Definition get (self : t) (name : str) : result Route.t :=
  get_from (routes self) name.

(** [remove] returns the object as the call leaves it. *)
Definition remove (self : t) (name : str) : M t :=
  if negb (existsb (fun n => str_eqb n name) (map Route.name (routes self)))
  then
    logger ERROR (Text (not_found_message name)) ;;;
    ret self
  else
    let self' :=
      mk (filter (fun route => negb (str_eqb (Route.name route) name))
            (routes self)) in
    logger INFO (Text (py "Removed route `" ++ name ++ py "`")) ;;;
    ret self'.

Section Files.

(** The [yaml] library is not modelled: [yaml.safe_load] on the text
    of a file and [yaml.safe_dump] of a value are parameters.  Values
    that [safe_load] can build but [json.dumps] cannot print (dates,
    sets, keys that are not strings) are outside [pyval]. *)
Variable yaml_safe_load : str -> result pyval.
Variable yaml_safe_dump : pyval -> str.

Definition from_file (path : str) : M t :=
  logger INFO (Text (py "Loading route config from " ++ path)) ;;;
  let ext := snd (Os_path.splitext path) in
  f <- open_read path ;;
  routes <-
    (if str_eqb ext (py ".json") then lift (Json.loads f)
     else if existsb (str_eqb ext) [py ".yaml"; py ".yml"]
          then lift (yaml_safe_load f)
          else raise (ValueError unsupported_message)) ;;
  let route_config_str := Json.dumps routes in
  ok <- is_valid route_config_str ;;
  if ok then
    routes <- lift (rbind (py_iter routes) (rmap Route.from_dict)) ;;
    ret (mk routes)
  else raise (Exception (py "Invalid config JSON or YAML")).

Definition to_file (self : t) (path : str) : M unit :=
  logger INFO (Text (py "Saving route config to " ++ path)) ;;;
  let ext := snd (Os_path.splitext path) in
  open_write path ;;;
  if str_eqb ext (py ".json") then write path (Json.dumps (to_dict self))
  else if existsb (str_eqb ext) [py ".yaml"; py ".yml"]
       then write path (yaml_safe_dump (to_dict self))
       else raise (ValueError unsupported_message).

End Files.

End RouteConfig.

(** The names the specification gives to the failures of the module. *)
Definition MissingConfigTagsError : exn := ValueError Route.no_tags_message.
Definition UnsupportedFileTypeError : exn :=
  ValueError RouteConfig.unsupported_message.
Definition RouteNotFoundError (name : str) : exn :=
  Exception (RouteConfig.not_found_message name).
Definition InvalidConfigError : exn :=
  Exception (py "Invalid config JSON or YAML").

(* ================================================================= *)
(** ** [RouteConfig] objects and the lists they hold

    [RouteConfig.__init__] keeps the list it is given, and its default
    argument is one list, made when the class is defined.  [add]
    appends to the list in place; [remove] binds [self.routes] to a new
    list.  Here a list of routes lives in a heap and an object holds a
    reference to it; [RouteConfig] above is what one object sees. *)

Module Objects.

Definition ref : Type := nat.

(** The list objects, by address. *)
Definition heap : Type := list (list Route.t).

Definition deref (h : heap) (r : ref) : list Route.t := nth r h [].

Fixpoint store (h : heap) (r : ref) (l : list Route.t) : heap :=
  match h, r with
  | [], _ => []
  | _ :: t, O => l :: t
  | x :: t, S r' => x :: store t r' l
  end.

(** An instance: the reference in [self.routes]. *)
Record t : Type := mk {
  routes : ref
}.

(** The list of the default argument [routes=[]]. *)
Definition default_routes : ref := 0.

(** The heap when the class has been defined: the default list, empty. *)
Definition initial_heap : heap := [[]].

Definition __init__ (routes : option ref) : t :=
  mk (match routes with
      | Some r => r
      | None => default_routes
      end).

(** What the object sees. *)
Definition view (h : heap) (self : t) : RouteConfig.t :=
  RouteConfig.mk (deref h (routes self)).

Definition add (self : t) (route : Route.t) (h : heap) : M heap :=
  let h' := store h (routes self) (deref h (routes self) ++ [route]) in
  logger INFO (Text (py "Added route `" ++ Route.name route ++ py "`")) ;;;
  ret h'.

Definition get (self : t) (name : str) (h : heap) : result Route.t :=
  RouteConfig.get_from (deref h (routes self)) name.

(** [remove] returns the object and the heap as the call leaves them:
    the comprehension makes a new list, at a new address. *)
Definition remove (self : t) (name : str) (h : heap) : M (t * heap) :=
  if negb (existsb (fun n => str_eqb n name)
             (map Route.name (deref h (routes self))))
  then
    logger ERROR (Text (RouteConfig.not_found_message name)) ;;;
    ret (self, h)
  else
    let fresh := List.length h in
    let h' := h ++ [filter (fun route => negb (str_eqb (Route.name route) name))
                      (deref h (routes self))] in
    logger INFO (Text (py "Removed route `" ++ name ++ py "`")) ;;;
    ret (mk fresh, h').

End Objects.

(* ================================================================= *)
(** ** Vocabulary of the properties *)

(** A world with no file and an empty log, in which every path can be
    opened for writing. *)
Definition empty_world : world := mkWorld (fun _ => None) [] (fun _ => None).

(** A world with no file, in which [path] cannot be opened for writing
    because its directory is missing. *)
Definition missing_directory (path : str) : world :=
  mkWorld (fun _ => None) []
    (fun p => if str_eqb p path then Some FileNotFoundError else None).

(** A text holds a tag pair: an opening tag and, after it, a closing
    tag. *)
Definition tag_pair_occurs (text : str) : Prop :=
  exists a b c, text = a ++ Re.open_tag ++ b ++ Re.close_tag ++ c.

(** [l'] is [l] without the routes called [name], the others in their
    order. *)
Inductive removed_all (name : str) : list Route.t -> list Route.t -> Prop :=
| removed_nil : removed_all name [] []
| removed_drop r l l' :
    Route.name r = name -> removed_all name l l' ->
    removed_all name (r :: l) l'
| removed_keep r l l' :
    Route.name r <> name -> removed_all name l l' ->
    removed_all name (r :: l) (r :: l').







(** A string of code points in which no high surrogate stands directly
    before a low surrogate: the strings that [json] writes and reads
    back.  Well-formed Unicode text, which holds no surrogate, is
    among them. *)
Fixpoint is_text (s : str) : bool :=
  match s with
  | [] => true
  | c :: r =>
      (c <=? 1114111)%N &&
      negb (Json.is_high_surrogate c &&
            match r with
            | d :: _ => Json.is_low_surrogate d
            | [] => false
            end) &&
      is_text r
  end.

(** A literal [json.loads] reads as one number. *)
Definition number_literal (lit : str) : bool :=
  match Json.scan_number lit with
  | Some (_, []) => true
  | _ => false
  end
  || str_eqb lit (py "NaN") || str_eqb lit (py "Infinity")
  || str_eqb lit (py "-Infinity").

Fixpoint distinct (ks : list str) : bool :=
  match ks with
  | [] => true
  | k :: r => negb (existsb (str_eqb k) r) && distinct r
  end.

(** A value whose strings [json] reads back, whose numbers are number
    literals and whose dicts have distinct keys. *)
Fixpoint plain (v : pyval) : bool :=
  match v with
  | JNull | JBool _ => true
  | JNumber lit => number_literal lit
  | JString s => is_text s
  | JList l => forallb plain l
  | JDict d =>
      forallb (fun kv => is_text (fst kv)) d && distinct (map fst d) &&
      forallb (fun kv => plain (snd kv)) d
  end.

Definition route_is_text (r : Route.t) : bool :=
  is_text (Route.name r) && forallb is_text (Route.utterances r) &&
  match Route.description r with
  | Some d => is_text d
  | None => true
  end.

(** The fuel [Json.parse_value] spends on the text of a value. *)
Fixpoint need (v : pyval) : nat :=
  match v with
  | JList l => S (fold_right (fun x n => S (Nat.max (need x) n)) 0 l)
  | JDict d => S (fold_right (fun kv n => S (Nat.max (need (snd kv)) n)) 0 d)
  | _ => 1
  end.

(** A text that cannot prolong a number standing before it. *)
Definition delimited (rest : str) : Prop :=
  match rest with
  | [] => True
  | c :: _ => Json.is_digit c = false /\ c <> 46%N /\ c <> 101%N /\ c <> 69%N
  end.

(** A text whose first character is neither white space, nor a closing
    bracket or brace, nor a byte order mark. *)
Definition starts_value (s : str) : bool :=
  match s with
  | c :: _ =>
      negb (Json.is_ws c) && negb (c =? 93)%N && negb (c =? 125)%N &&
      negb (c =? 65279)%N
  | [] => false
  end.

(** The text [json.dumps] writes for [v] is read back as [v], whatever
    delimited text follows it. *)
Definition reads_back (v : pyval) : Prop :=
  plain v = true ->
  forall fuel rest, need v <= fuel -> delimited rest ->
  Json.parse_value fuel (Json.dumps v ++ rest) = Json.Parsed v rest.

(** A mapping that holds both required keys. *)
Definition has_required_keys (v : pyval) : bool :=
  match v with
  | JDict d => dict_has (py "name") d && dict_has (py "utterances") d
  | _ => false
  end.

(** The shape the specification asks of an accepted payload: one
    mapping, or a list of mappings, each with both required keys. *)
Definition route_payload (v : pyval) : bool :=
  match v with
  | JList l => forallb has_required_keys l
  | _ => has_required_keys v
  end.

(** The items the validator looks at: the elements of a list, or the
    one value that is not a list. *)
Definition items_of (v : pyval) : list pyval :=
  match v with
  | JList l => l
  | _ => [v]
  end.

(** A value on which [in] can be asked. *)
Definition iterable (v : pyval) : bool :=
  match v with
  | JDict _ | JList _ | JString _ => true
  | JNull | JBool _ | JNumber _ => false
  end.

(** The schema of the end-to-end scenario of the specification. *)
Definition weather_schema : schema :=
  mkSchema (py "get_weather") (Some (py "Get current weather"))
    (py "(city: str) -> str") None.






(** A YAML library that cannot read or write anything, for the
    examples that stay with JSON files, and one that writes JSON text,
    which is YAML in flow style, with the keys of the mappings of a
    list sorted, and reads it. *)
Definition no_yaml_load : str -> result pyval := fun _ => Raise YAMLError.
Definition no_yaml_dump : pyval -> str := fun _ => [].

(** A mapping. *)
Definition is_mapping (v : pyval) : bool :=
  match v with
  | JDict _ => true
  | _ => false
  end.

(** The exceptions of the synthesis pipeline, under the names of the
    specification. *)
Definition EmptyCompletionError : exn := Exception (py "No output generated").
Definition NoConfigError : exn := Exception (py "No config generated").

(** A computation that leaves every file as it was, however it ends. *)
Definition keeps_files {A} (c : M A) : Prop :=
  forall w, files (world_after c w) = files w.

(** A completion endpoint that always answers [output]. *)
Definition answers (output : option str) : schema -> option str :=
  fun _ => output.

(* ================================================================= *)
(** * Properties *)

(** ** [str] of a number *)

(** Integers are written as they are read, but for the zero with a
    sign; a float is written with the digits it needs, a tie between
    two floats goes to the even one, and [1e400] is beyond the range. *)
Example number_to_str :
  map Number.to_str
    [py "1"; py "-0"; py "-12"; py "1.50"; py "-0.0"; py "0.1"; py "1e2";
     py "1e16"; py "0.00001"; py "9007199254740993.0"; py "1e400";
     py "Infinity"; py "NaN"]
  = [py "1"; py "0"; py "-12"; py "1.5"; py "-0.0"; py "0.1"; py "100.0";
     py "1e+16"; py "1e-05"; py "9007199254740992.0"; py "inf";
     py "inf"; py "nan"].
Proof. vm_compute. reflexivity. Qed.

(** ** Strings *)

Lemma str_eqb_eq (a b : str) : str_eqb a b = true <-> a = b.
Proof.
  revert b; induction a as [|x a IH]; intros [|y b]; simpl;
    try (split; [discriminate | congruence]); try tauto.
  rewrite andb_true_iff, N.eqb_eq, IH.
  split; [intros [-> ->]; reflexivity | intros [= -> ->]; auto].
Qed.

Lemma str_eqb_refl (a : str) : str_eqb a a = true.
Proof. apply str_eqb_eq; reflexivity. Qed.

Lemma str_eqb_neq (a b : str) : str_eqb a b = false <-> a <> b.
Proof.
  rewrite <- str_eqb_eq. destruct (str_eqb a b); split; congruence.
Qed.

Lemma after_spec (w s r : str) : after w s = Some r <-> s = w ++ r.
Proof.
  revert s; induction w as [|a w IH]; intros s; simpl.
  - split; congruence.
  - destruct s as [|b s].
    + split; discriminate.
    + destruct (N.eqb_spec a b) as [->|Hne].
      * rewrite IH. split; congruence.
      * split; [discriminate | intros [= -> _]; congruence].
Qed.

Lemma after_app (w r : str) : after w (w ++ r) = Some r.
Proof. apply after_spec; reflexivity. Qed.

Lemma startswith_spec (p s : str) :
  startswith p s = true <-> exists r, s = p ++ r.
Proof.
  revert s; induction p as [|a p IH]; intros s; simpl.
  - split; eauto.
  - destruct s as [|b s].
    + split; [discriminate | intros [r Hr]; discriminate].
    + rewrite andb_true_iff, N.eqb_eq, IH. split.
      * intros [-> [r ->]]. eauto.
      * intros [r [= -> ->]]. eauto.
Qed.


(** ** Lookup and removal by name *)

Ltac run_monad :=
  unfold outcome, world_after, bind, lift, ret, raise, logger,
    open_read, open_write, write; simpl.

Lemma get_from_absent (rs : list Route.t) (name : str) :
  (forall r, In r rs -> Route.name r <> name) ->
  RouteConfig.get_from rs name = Raise (RouteNotFoundError name).
Proof.
  induction rs as [|r rs IH]; intros Habs; simpl.
  - reflexivity.
  - destruct (str_eqb (Route.name r) name) eqn:E.
    + apply str_eqb_eq in E. exfalso. apply (Habs r); simpl; auto.
    + apply IH. intros x Hx. apply Habs. simpl; auto.
Qed.

Lemma get_from_first (rs : list Route.t) (name : str) :
  (exists r, In r rs /\ Route.name r = name) ->
  exists front r back,
    rs = front ++ r :: back /\ Route.name r = name /\
    (forall x, In x front -> Route.name x <> name) /\
    RouteConfig.get_from rs name = Ok r.
Proof.
  induction rs as [|r rs IH]; intros [x [Hin Hx]]; simpl in *.
  - contradiction.
  - destruct (str_eqb (Route.name r) name) eqn:E.
    + apply str_eqb_eq in E. exists [], r, rs. simpl. intuition.
    + apply str_eqb_neq in E.
      destruct Hin as [-> | Hin]; [contradiction|].
      destruct IH as (front & r' & back & -> & Hn & Hfront & Hget); eauto.
      exists (r :: front), r', back. simpl. repeat split; auto.
      intros y [<- | Hy]; auto.
Qed.

Lemma names_absent (rs : list Route.t) (name : str) :
  existsb (fun n => str_eqb n name) (map Route.name rs) = false <->
  (forall r, In r rs -> Route.name r <> name).
Proof.
  induction rs as [|r rs IH]; simpl.
  - split; [intros _ r [] | reflexivity].
  - rewrite orb_false_iff, IH, str_eqb_neq. split.
    + intros [Hr Hrs] x [<- | Hx]; auto.
    + intros H. split; [apply H; auto | intros x Hx; apply H; auto].
Qed.

Lemma filter_removed_all (rs : list Route.t) (name : str) :
  removed_all name rs
    (filter (fun route => negb (str_eqb (Route.name route) name)) rs).
Proof.
  induction rs as [|r rs IH]; simpl.
  - constructor.
  - destruct (str_eqb (Route.name r) name) eqn:E; simpl.
    + apply removed_drop; [apply str_eqb_eq; exact E | exact IH].
    + apply removed_keep; [apply str_eqb_neq; exact E | exact IH].
Qed.

(** C8.  When no route of a RouteConfig is called [name], [get(name)]
    fails with RouteNotFoundError, while [remove(name)] returns without
    raising, leaves the routes as they were and logs one error.  When
    some route is called [name], [get] returns the first such route and
    [remove] returns with all the routes of that name removed, the
    others kept in their order. *)
Theorem get_and_remove_by_name (self : RouteConfig.t) (name : str) (w : world) :
  ((forall r, In r (RouteConfig.routes self) -> Route.name r <> name) ->
   RouteConfig.get self name = Raise (RouteNotFoundError name) /\
   outcome (RouteConfig.remove self name) w = Ok self /\
   files (world_after (RouteConfig.remove self name) w) = files w /\
   logs (world_after (RouteConfig.remove self name) w) =
     logs w ++ [(ERROR, Text (RouteConfig.not_found_message name))]) /\
  ((exists r, In r (RouteConfig.routes self) /\ Route.name r = name) ->
   (exists front r back,
      RouteConfig.routes self = front ++ r :: back /\
      Route.name r = name /\
      (forall x, In x front -> Route.name x <> name) /\
      RouteConfig.get self name = Ok r) /\
   (exists self',
      outcome (RouteConfig.remove self name) w = Ok self' /\
      removed_all name (RouteConfig.routes self) (RouteConfig.routes self'))).
Proof.
  split.
  - intros Habs. split; [apply get_from_absent; exact Habs|].
    unfold RouteConfig.remove.
    apply names_absent in Habs. rewrite Habs. run_monad. auto.
  - intros Hex. split; [apply get_from_first; exact Hex|].
    unfold RouteConfig.remove.
    destruct (existsb _ (map Route.name (RouteConfig.routes self))) eqn:E.
    + run_monad. eexists. split; [reflexivity|]. simpl.
      apply filter_removed_all.
    + exfalso. destruct Hex as [r [Hin Hr]].
      rewrite names_absent in E. exact (E r Hin Hr).
Qed.

(** An empty RouteConfig and one with two routes called [a]. *)
Lemma get_and_remove_by_name_witness :
  (RouteConfig.get (RouteConfig.mk []) (py "missing")
     = Raise (RouteNotFoundError (py "missing")) /\
   outcome (RouteConfig.remove (RouteConfig.mk []) (py "missing")) empty_world
     = Ok (RouteConfig.mk [])) /\
  (exists self',
     outcome (RouteConfig.remove
                (RouteConfig.mk [Route.mk (py "b") [] None;
                                 Route.mk (py "a") [py "one"] None;
                                 Route.mk (py "a") [py "two"] None])
                (py "a")) empty_world = Ok self' /\
     removed_all (py "a")
       [Route.mk (py "b") [] None; Route.mk (py "a") [py "one"] None;
        Route.mk (py "a") [py "two"] None]
       (RouteConfig.routes self')).
Proof.
  split.
  - destruct (get_and_remove_by_name (RouteConfig.mk []) (py "missing")
                empty_world) as [Habsent _].
    destruct Habsent as (Hget & Hremove & _).
    + intros r [].
    + split; assumption.
  - destruct (get_and_remove_by_name
                (RouteConfig.mk [Route.mk (py "b") [] None;
                                 Route.mk (py "a") [py "one"] None;
                                 Route.mk (py "a") [py "two"] None])
                (py "a") empty_world) as [_ Hpresent].
    destruct Hpresent as [_ Hremove].
    + exists (Route.mk (py "a") [py "one"] None). simpl. split; auto.
    + exact Hremove.
Defined.

(** ** File types *)

Lemma unsupported_branch (ext : str) :
  ext <> py ".json" -> ext <> py ".yaml" -> ext <> py ".yml" ->
  str_eqb ext (py ".json") = false /\
  existsb (str_eqb ext) [py ".yaml"; py ".yml"] = false.
Proof.
  intros H1 H2 H3. split.
  - apply str_eqb_neq; exact H1.
  - cbn [existsb]. rewrite !orb_false_iff.
    repeat split; try (apply str_eqb_neq; assumption).
Qed.

(** C9, as the code has it.  When the extension of [path] is none of
    [.json], [.yaml] and [.yml]: loading the file at [path] fails with
    UnsupportedFileTypeError whatever the file contains; saving to
    [path] fails with the same error when [path] can be opened for
    writing, and otherwise with the error of [open], which comes
    first. *)
Theorem unsupported_extension_fails
    (yaml_safe_load : str -> result pyval) (yaml_safe_dump : pyval -> str)
    (self : RouteConfig.t) (path content : str) (w : world) :
  snd (Os_path.splitext path) <> py ".json" ->
  snd (Os_path.splitext path) <> py ".yaml" ->
  snd (Os_path.splitext path) <> py ".yml" ->
  (files w path = Some content ->
   outcome (RouteConfig.from_file yaml_safe_load path) w
     = Raise UnsupportedFileTypeError) /\
  (write_error w path = None ->
   outcome (RouteConfig.to_file yaml_safe_dump self path) w
     = Raise UnsupportedFileTypeError) /\
  (forall e, write_error w path = Some e ->
   outcome (RouteConfig.to_file yaml_safe_dump self path) w = Raise e).
Proof.
  intros H1 H2 H3.
  destruct (unsupported_branch _ H1 H2 H3) as [Ej Ey].
  split; [|split].
  - intros Hfile. unfold RouteConfig.from_file.
    rewrite Ej, Ey. run_monad. rewrite Hfile. reflexivity.
  - intros Hopen. unfold RouteConfig.to_file. rewrite Ej, Ey. run_monad.
    rewrite Hopen. reflexivity.
  - intros e Hopen. unfold RouteConfig.to_file. run_monad.
    rewrite Hopen. reflexivity.
Qed.

(** A file [routes.txt] that holds a well-formed list of routes. *)
Lemma unsupported_extension_fails_witness :
  outcome (RouteConfig.from_file no_yaml_load (py "routes.txt"))
    (mkWorld (set_file (py "routes.txt")
                (dq "[{'name': 'a', 'utterances': ['hi']}]") (fun _ => None)) []
       (fun _ => None))
    = Raise UnsupportedFileTypeError /\
  outcome (RouteConfig.to_file no_yaml_dump (RouteConfig.mk []) (py "routes.txt"))
    empty_world = Raise UnsupportedFileTypeError.
Proof.
  destruct (unsupported_extension_fails no_yaml_load no_yaml_dump
              (RouteConfig.mk []) (py "routes.txt")
              (dq "[{'name': 'a', 'utterances': ['hi']}]")
              (mkWorld (set_file (py "routes.txt")
                          (dq "[{'name': 'a', 'utterances': ['hi']}]")
                          (fun _ => None)) [] (fun _ => None))) as [Hload _];
    try (vm_compute; discriminate).
  destruct (unsupported_extension_fails no_yaml_load no_yaml_dump
              (RouteConfig.mk []) (py "routes.txt") [] empty_world)
    as (_ & Hsave & _); try (vm_compute; discriminate).
  split; [apply Hload; reflexivity | apply Hsave; reflexivity].
Defined.

(** C9, as stated, fails: saving to [nodir/routes.txt] when the
    directory [nodir] is missing fails with FileNotFoundError, which
    is not UnsupportedFileTypeError, and loading [routes.txt] when no
    such file is there fails the same way. *)
Lemma unsupported_extension_counterexample :
  outcome (RouteConfig.to_file no_yaml_dump (RouteConfig.mk [])
             (py "nodir/routes.txt"))
    (missing_directory (py "nodir/routes.txt")) = Raise FileNotFoundError /\
  outcome (RouteConfig.from_file no_yaml_load (py "routes.txt")) empty_world
    = Raise FileNotFoundError /\
  FileNotFoundError <> UnsupportedFileTypeError.
Proof.
  split; [reflexivity|]. split; [reflexivity | discriminate].
Qed.

(** ** Extraction of the delimited payload *)

Lemma open_tag_chars : Re.open_tag = [60; 99; 111; 110; 102; 105; 103; 62]%N.
Proof. reflexivity. Qed.

Lemma close_tag_chars :
  Re.close_tag = [60; 47; 99; 111; 110; 102; 105; 103; 62]%N.
Proof. reflexivity. Qed.

Lemma lazy_group_unfold (s : str) :
  Re.lazy_group s =
    if startswith Re.close_tag s then Some []
    else match s with
         | [] => None
         | c :: r => option_map (cons c) (Re.lazy_group r)
         end.
Proof. destruct s; reflexivity. Qed.

Lemma search_unfold (s : str) :
  Re.search s =
    match Re.match_here s with
    | Some g => Some g
    | None => match s with
              | [] => None
              | _ :: r => Re.search r
              end
    end.
Proof. destruct s; reflexivity. Qed.

Lemma lazy_group_sound (s g : str) :
  Re.lazy_group s = Some g -> exists c, s = g ++ Re.close_tag ++ c.
Proof.
  revert g; induction s as [|x s IH]; intros g; cbn [Re.lazy_group].
  - destruct (startswith Re.close_tag []) eqn:E; [|discriminate].
    rewrite close_tag_chars in E. discriminate.
  - destruct (startswith Re.close_tag (x :: s)) eqn:E.
    + intros [= <-]. apply startswith_spec in E. exact E.
    + destruct (Re.lazy_group s) as [g'|]; [|discriminate].
      intros [= <-]. destruct (IH g' eq_refl) as [c ->].
      exists c. reflexivity.
Qed.

Lemma lazy_group_at_close (c : str) :
  Re.lazy_group (Re.close_tag ++ c) = Some [].
Proof.
  assert (E : startswith Re.close_tag (Re.close_tag ++ c) = true)
    by (apply startswith_spec; eauto).
  rewrite lazy_group_unfold, E. reflexivity.
Qed.

Lemma lazy_group_complete (b c : str) :
  exists g, Re.lazy_group (b ++ Re.close_tag ++ c) = Some g.
Proof.
  induction b as [|x b [g IH]].
  - exists []. apply lazy_group_at_close.
  - rewrite <- app_comm_cons, lazy_group_unfold.
    destruct (startswith Re.close_tag (x :: b ++ Re.close_tag ++ c)).
    + eauto.
    + rewrite IH. simpl. eauto.
Qed.

(** The closing tag opens with the one [<] it holds, so no closing tag
    starts inside [x] and ends inside a closing tag that follows [x]. *)
Lemma close_tag_no_straddle (x c : str) :
  x <> [] ->
  startswith Re.close_tag (x ++ Re.close_tag ++ c) = true ->
  startswith Re.close_tag x = true.
Proof.
  rewrite close_tag_chars. intros Hx H.
  destruct x as [|x1 [|x2 [|x3 [|x4 [|x5 [|x6 [|x7 [|x8 [|x9 x]]]]]]]]];
    try congruence; simpl in *;
    repeat (apply andb_true_iff in H; destruct H as [? H]);
    try discriminate.
  repeat (apply andb_true_iff; split); assumption.
Qed.

Lemma lazy_group_shortest (b c : str) :
  contains Re.close_tag b = false ->
  Re.lazy_group (b ++ Re.close_tag ++ c) = Some b.
Proof.
  induction b as [|x b IH]; intros Hb.
  - apply lazy_group_at_close.
  - cbn [contains] in Hb. apply orb_false_iff in Hb. destruct Hb as [Hx Hb].
    rewrite <- app_comm_cons, lazy_group_unfold.
    destruct (startswith Re.close_tag (x :: b ++ Re.close_tag ++ c)) eqn:E.
    + rewrite app_comm_cons in E.
      apply (close_tag_no_straddle (x :: b) c) in E; congruence.
    + rewrite (IH Hb). reflexivity.
Qed.

Lemma search_sound (text g : str) :
  Re.search text = Some g ->
  exists a c, text = a ++ Re.open_tag ++ g ++ Re.close_tag ++ c.
Proof.
  induction text as [|x text IH]; cbn [Re.search]; unfold Re.match_here.
  - destruct (after Re.open_tag []) as [r|] eqn:E; [|discriminate].
    rewrite open_tag_chars in E. discriminate.
  - destruct (after Re.open_tag (x :: text)) as [r|] eqn:E.
    + apply after_spec in E.
      destruct (Re.lazy_group r) as [g'|] eqn:G.
      * intros [= <-]. destruct (lazy_group_sound _ _ G) as [c ->].
        exists [], c. exact E.
      * intros H. destruct (IH H) as (a & c & ->).
        exists (x :: a), c. reflexivity.
    + intros H. destruct (IH H) as (a & c & ->).
      exists (x :: a), c. reflexivity.
Qed.

Lemma search_complete (text : str) :
  tag_pair_occurs text -> exists g, Re.search text = Some g.
Proof.
  intros (a & b & c & ->). induction a as [|x a [g IH]].
  - rewrite app_nil_l. destruct (lazy_group_complete b c) as [g Hg].
    exists g.
    assert (E : Re.match_here (Re.open_tag ++ b ++ Re.close_tag ++ c) = Some g)
      by (unfold Re.match_here; rewrite after_app; exact Hg).
    rewrite search_unfold, E. reflexivity.
  - rewrite <- app_comm_cons, search_unfold.
    destruct (Re.match_here (x :: a ++ Re.open_tag ++ b ++ Re.close_tag ++ c)).
    + eauto.
    + eauto.
Qed.

Lemma search_wrapped (s : str) :
  contains Re.close_tag s = false ->
  Re.search (Re.open_tag ++ s ++ Re.close_tag) = Some s.
Proof.
  intros Hs.
  assert (E : Re.match_here (Re.open_tag ++ s ++ Re.close_tag) = Some s).
  { unfold Re.match_here. rewrite after_app.
    rewrite <- (app_nil_r Re.close_tag). apply lazy_group_shortest. exact Hs. }
  rewrite search_unfold, E. reflexivity.
Qed.

(** What [strip] leaves: the text between the longest runs of white
    space at the two ends. *)
Lemma lstrip_spec (s : str) :
  exists l, s = l ++ lstrip s /\ forallb isspace l = true /\
            match lstrip s with [] => True | c :: _ => isspace c = false end.
Proof.
  induction s as [|c s (l & Hs & Hl & Hhead)]; simpl.
  - exists []. auto.
  - destruct (isspace c) eqn:E.
    + exists (c :: l). simpl. rewrite E, Hl. rewrite <- Hs. auto.
    + exists []. simpl. auto.
Qed.

Lemma strip_spec (s : str) :
  exists l r,
    s = l ++ strip s ++ r /\
    forallb isspace l = true /\ forallb isspace r = true /\
    match strip s with [] => True | c :: _ => isspace c = false end /\
    match rev (strip s) with [] => True | c :: _ => isspace c = false end.
Proof.
  destruct (lstrip_spec s) as (l & Hs & Hl & Hhead).
  destruct (lstrip_spec (rev (lstrip s))) as (r' & Hr & Hr' & Htail).
  unfold strip, rstrip.
  exists l, (rev r').
  assert (Hmid : lstrip s = rev (lstrip (rev (lstrip s))) ++ rev r').
  { rewrite <- rev_app_distr, <- Hr, rev_involutive. reflexivity. }
  repeat split.
  - rewrite <- Hmid. exact Hs.
  - exact Hl.
  - apply forallb_forall. intros x Hx. apply in_rev in Hx.
    rewrite forallb_forall in Hr'. auto.
  - destruct (rev (lstrip (rev (lstrip s)))) as [|c t] eqn:E; [exact I|].
    rewrite Hmid in Hhead. exact Hhead.
  - rewrite rev_involutive. exact Htail.
Qed.

(** C3.  For every string [s] that holds neither the opening nor the
    closing tag, the extraction from the text [<config>s</config>]
    succeeds and returns [s] stripped of the white space at its two
    ends. *)
Theorem extract_wrapped (s : str) :
  contains Re.open_tag s = false ->
  contains Re.close_tag s = false ->
  Route._parse_route_config (Re.open_tag ++ s ++ Re.close_tag) = Ok (strip s).
Proof.
  intros _ Hclose. unfold Route._parse_route_config.
  rewrite (search_wrapped s Hclose). reflexivity.
Qed.

(** A payload on three lines, indented and followed by a newline. *)
Lemma extract_wrapped_witness :
  Route._parse_route_config
    (Re.open_tag ++ (10 :: py "  {'name': 'x'} " ++ [10; 9])%N ++ Re.close_tag)
    = Ok (py "{'name': 'x'}").
Proof.
  rewrite (extract_wrapped (10 :: py "  {'name': 'x'} " ++ [10; 9])%N);
    reflexivity.
Defined.

(** C7.  On every text that holds no tag pair, the extraction fails
    with MissingConfigTagsError: it returns no value. *)
Theorem extract_without_tags (text : str) :
  ~ tag_pair_occurs text ->
  Route._parse_route_config text = Raise MissingConfigTagsError.
Proof.
  intros Hno. unfold Route._parse_route_config.
  destruct (Re.search text) as [g|] eqn:E; [|reflexivity].
  exfalso. apply Hno. destruct (search_sound _ _ E) as (a & c & ->).
  exists a, g, c. reflexivity.
Qed.

(** A text with a closing tag before an opening tag, and no pair. *)
Lemma extract_without_tags_witness :
  Route._parse_route_config (py "</config> {'name': 'x'} <config>")
    = Raise MissingConfigTagsError.
Proof.
  apply extract_without_tags.
  intros H. apply search_complete in H. destruct H as [g H].
  vm_compute in H. discriminate.
Defined.

(** ** The signature of a schema *)



Lemma join_cons (sep x : str) (l : list str) :
  join sep (x :: l) = x ++ match l with [] => [] | _ :: _ => sep ++ join sep l end.
Proof. destruct l; simpl; [rewrite app_nil_r|]; reflexivity. Qed.












(** ** The JSON decoder: totality *)

Ltac break_in H :=
  repeat match type of H with
         | context [match ?x with _ => _ end] =>
             lazymatch x with
             | context [match _ with _ => _ end] => fail
             | _ => destruct x eqn:?
             end
         end.

Ltac break_goal :=
  repeat match goal with
         | |- context [match ?x with _ => _ end] =>
             lazymatch x with
             | context [match _ with _ => _ end] => fail
             | _ => destruct x eqn:?
             end
         end.

Lemma skip_ws_length (s : str) :
  List.length (Json.skip_ws s) <= List.length s.
Proof.
  induction s as [|c s IH]; simpl; [lia|].
  destruct (Json.is_ws c); simpl; lia.
Qed.

Lemma after_length (w s r : str) :
  after w s = Some r -> List.length r <= List.length s.
Proof.
  intros H. apply after_spec in H. subst s. rewrite length_app. lia.
Qed.

Lemma cons_char_some (c : N) (o : option (str * str)) (x r : str) :
  Json.cons_char c o = Some (x, r) ->
  exists x', o = Some (x', r) /\ x = c :: x'.
Proof.
  destruct o as [[x' r']|]; simpl; [|discriminate].
  intros [= <- <-]. eauto.
Qed.

Lemma scanstring_length (n : nat) :
  forall s x r, List.length s <= n ->
  Json.scanstring s = Some (x, r) -> List.length r < List.length s.
Proof.
  induction n as [|n IH]; intros s x r Hn H.
  - destruct s; [discriminate | simpl in Hn; lia].
  - destruct s as [|c s]; [discriminate|].
    cbn [Json.scanstring] in H. simpl in Hn.
    break_in H; try discriminate;
      try (injection H as <- <-);
      try (apply cons_char_some in H; destruct H as (x' & H & _);
           apply IH in H; simpl in *; lia);
      simpl; lia.
Qed.

Lemma span_digits_eq (s ds r : str) :
  Json.span_digits s = (ds, r) -> s = ds ++ r.
Proof.
  revert ds r; induction s as [|c s IH]; intros ds r; simpl.
  - intros [= <- <-]. reflexivity.
  - destruct (Json.is_digit c).
    + destruct (Json.span_digits s) as [ds' r'].
      intros [= <- <-]. rewrite (IH ds' r' eq_refl). reflexivity.
    + intros [= <- <-]. reflexivity.
Qed.

Lemma scan_int_eq (s i r : str) :
  Json.scan_int s = Some (i, r) -> s = i ++ r /\ i <> [].
Proof.
  unfold Json.scan_int. intros H.
  break_in H; try discriminate;
    repeat match goal with
           | E : (_, _) = (_, _) |- _ => injection E as <- <-
           | E : Some _ = Some _ |- _ => injection E as <- <-
           | E : (_ =? _)%N = true |- _ => apply N.eqb_eq in E; subst
           | E : Json.span_digits _ = _ |- _ => apply span_digits_eq in E; subst
           end;
    split; try reflexivity; try discriminate;
    try (destruct l; discriminate).
Qed.

Lemma scan_frac_eq (s f r : str) : Json.scan_frac s = (f, r) -> s = f ++ r.
Proof.
  unfold Json.scan_frac. intros H.
  break_in H;
    repeat match goal with
           | E : (_, _) = (_, _) |- _ => injection E as <- <-
           | E : (_ =? _)%N = true |- _ => apply N.eqb_eq in E; subst
           | E : Json.span_digits _ = _ |- _ => apply span_digits_eq in E; subst
           end; reflexivity.
Qed.

Lemma scan_exp_eq (s e r : str) : Json.scan_exp s = (e, r) -> s = e ++ r.
Proof.
  unfold Json.scan_exp. intros H.
  break_in H;
    repeat match goal with
           | E : (_, _) = (_, _) |- _ => injection E as <- <-
           | E : Json.span_digits _ = _ |- _ => apply span_digits_eq in E; subst
           end;
    simpl in *; try congruence; rewrite <- ?app_assoc; reflexivity.
Qed.

Lemma scan_number_eq (s lit r : str) :
  Json.scan_number s = Some (lit, r) -> s = lit ++ r /\ lit <> [].
Proof.
  unfold Json.scan_number. intros H.
  destruct (Json.scan_int s) as [[i r0]|] eqn:Ei; [|discriminate].
  destruct (Json.scan_frac r0) as [f r1] eqn:Ef.
  destruct (Json.scan_exp r1) as [e r2] eqn:Ee.
  injection H as <- <-.
  apply scan_int_eq in Ei. destruct Ei as [-> Hi].
  apply scan_frac_eq in Ef. apply scan_exp_eq in Ee. subst.
  rewrite <- !app_assoc. split; [reflexivity|].
  destruct i; [congruence | discriminate].
Qed.

Lemma scan_number_length (s lit r : str) :
  Json.scan_number s = Some (lit, r) -> List.length r < List.length s.
Proof.
  intros H. apply scan_number_eq in H. destruct H as [-> Hlit].
  rewrite length_app. destruct lit; [congruence | simpl; lia].
Qed.

Ltac length_facts :=
  repeat match goal with
         | E : Json.skip_ws ?a = _ |- _ =>
             let H := fresh "Hws" in
             pose proof (skip_ws_length a) as H; rewrite E in H; clear E
         | E : Json.scanstring _ = Some _ |- _ =>
             apply (scanstring_length _ _ _ _ (le_n _)) in E
         | E : after _ _ = Some _ |- _ => apply after_length in E
         | E : Json.scan_number _ = Some _ |- _ => apply scan_number_length in E
         end.

Lemma parse_shrinks (fuel : nat) :
  (forall s v r, Json.parse_value fuel s = Json.Parsed v r ->
                 List.length r < List.length s) /\
  (forall s l r, Json.parse_elems fuel s = Json.Parsed l r ->
                 List.length r < List.length s) /\
  (forall s l r, Json.parse_members fuel s = Json.Parsed l r ->
                 List.length r < List.length s).
Proof.
  induction fuel as [|f (IHv & IHe & IHm)].
  - repeat split; intros; discriminate.
  - repeat split; intros s x r H.
    + cbn [Json.parse_value] in H.
      break_in H; try discriminate; injection H as <- <-;
        repeat match goal with
               | E : Json.parse_elems f _ = Json.Parsed _ _ |- _ => apply IHe in E
               | E : Json.parse_members f _ = Json.Parsed _ _ |- _ => apply IHm in E
               end;
        length_facts; simpl in *; lia.
    + cbn [Json.parse_elems] in H.
      break_in H; try discriminate; injection H as <- <-;
        repeat match goal with
               | E : Json.parse_value f _ = Json.Parsed _ _ |- _ => apply IHv in E
               | E : Json.parse_elems f _ = Json.Parsed _ _ |- _ => apply IHe in E
               end;
        try match goal with
            | E : List.length _ < List.length (Json.skip_ws ?a) |- _ =>
                pose proof (skip_ws_length a)
            end;
        length_facts; simpl in *; lia.
    + cbn [Json.parse_members] in H.
      break_in H; try discriminate; injection H as <- <-;
        repeat match goal with
               | E : Json.parse_value f _ = Json.Parsed _ _ |- _ => apply IHv in E
               | E : Json.parse_members f _ = Json.Parsed _ _ |- _ => apply IHm in E
               end;
        repeat match goal with
               | E : List.length _ < List.length (Json.skip_ws ?a) |- _ =>
                   lazymatch goal with
                   | _ : List.length (Json.skip_ws a) <= List.length a |- _ => fail
                   | _ => pose proof (skip_ws_length a)
                   end
               end;
        length_facts; simpl in *; lia.
Qed.

(** With the fuel [Json.loads] gives it, the decoder never stops for
    want of fuel: its verdict on a text is that of the grammar. *)
Lemma parse_fuel (fuel : nat) :
  (forall s, 2 * List.length s + 1 <= fuel ->
             Json.parse_value fuel s <> Json.OutOfFuel) /\
  (forall s, 2 * List.length s + 2 <= fuel ->
             Json.parse_elems fuel s <> Json.OutOfFuel) /\
  (forall s, 2 * List.length s + 2 <= fuel ->
             Json.parse_members fuel s <> Json.OutOfFuel).
Proof.
  induction fuel as [|f (IHv & IHe & IHm)].
  - repeat split; intros; lia.
  - repeat split; intros s Hfuel H.
    + cbn [Json.parse_value] in H.
      break_in H; try discriminate;
        match goal with
        | E : Json.parse_elems f ?a = Json.OutOfFuel |- _ => apply (IHe a)
        | E : Json.parse_members f ?a = Json.OutOfFuel |- _ => apply (IHm a)
        end; try assumption;
        length_facts; simpl in *; lia.
    + cbn [Json.parse_elems] in H.
      break_in H; try discriminate;
        repeat match goal with
               | E : Json.parse_value f _ = Json.Parsed _ _ |- _ =>
                   apply (proj1 (parse_shrinks f)) in E
               end;
        match goal with
        | E : Json.parse_elems f (Json.skip_ws ?a) = Json.OutOfFuel |- _ =>
            apply (IHe (Json.skip_ws a)); [|exact E];
            pose proof (skip_ws_length a)
        | E : Json.parse_value f ?a = Json.OutOfFuel |- _ =>
            apply (IHv a); [|exact E]
        end;
        length_facts; simpl in *; lia.
    + cbn [Json.parse_members] in H.
      break_in H; try discriminate;
        repeat match goal with
               | E : Json.parse_value f _ = Json.Parsed _ _ |- _ =>
                   apply (proj1 (parse_shrinks f)) in E
               end;
        match goal with
        | E : Json.parse_members f (Json.skip_ws ?a) = Json.OutOfFuel |- _ =>
            apply (IHm (Json.skip_ws a)); [|exact E];
            pose proof (skip_ws_length a)
        | E : Json.parse_value f (Json.skip_ws ?a) = Json.OutOfFuel |- _ =>
            apply (IHv (Json.skip_ws a)); [|exact E];
            pose proof (skip_ws_length a)
        end;
        repeat match goal with
               | E : List.length _ < List.length (Json.skip_ws ?a) |- _ =>
                   lazymatch goal with
                   | _ : List.length (Json.skip_ws a) <= List.length a |- _ => fail
                   | _ => pose proof (skip_ws_length a)
                   end
               end;
        length_facts; simpl in *; lia.
Qed.

Lemma loads_never_out_of_fuel (s : str) :
  Json.parse_value (2 * List.length s + 2) (Json.skip_ws s) <> Json.OutOfFuel.
Proof.
  apply (proj1 (parse_fuel _)). pose proof (skip_ws_length s). lia.
Qed.

(** ** The JSON encoder and decoder: strings *)

Lemma hexval_hexdigit (d : N) :
  (d < 16)%N -> Json.hexval (Json.hexdigit d) = Some d.
Proof.
  intros Hd. unfold Json.hexdigit, Json.hexval.
  destruct (N.ltb_spec d 10).
  - replace ((48 <=? 48 + d) && (48 + d <=? 57))%N with true
      by (symmetry; apply andb_true_iff; split; apply N.leb_le; lia).
    f_equal. lia.
  - replace ((48 <=? 87 + d) && (87 + d <=? 57))%N with false
      by (symmetry; apply andb_false_iff; right; apply N.leb_gt; lia).
    replace ((97 <=? 87 + d) && (87 + d <=? 102))%N with true
      by (symmetry; apply andb_true_iff; split; apply N.leb_le; lia).
    f_equal. lia.
Qed.

Lemma hex4_escape (n : N) :
  (n < 65536)%N ->
  Json.hex4 (Json.hexdigit (n / 4096 mod 16)) (Json.hexdigit (n / 256 mod 16))
            (Json.hexdigit (n / 16 mod 16)) (Json.hexdigit (n mod 16)) = Some n.
Proof.
  intros Hn. unfold Json.hex4.
  rewrite !hexval_hexdigit by (apply N.mod_lt; discriminate).
  f_equal.
  zify. Z.to_euclidean_division_equations. lia.
Qed.

Lemma scanstring_u (h1 h2 h3 h4 u : N) (tail : str) :
  Json.hex4 h1 h2 h3 h4 = Some u ->
  Json.is_high_surrogate u = false ->
  Json.scanstring (92 :: 117 :: h1 :: h2 :: h3 :: h4 :: tail)%N
    = Json.cons_char u (Json.scanstring tail).
Proof.
  intros Hu Hhigh. cbn [Json.scanstring]. cbn [N.eqb Pos.eqb].
  rewrite Hu, Hhigh. reflexivity.
Qed.

Lemma scanstring_pair (h1 h2 h3 h4 g1 g2 g3 g4 u u2 : N) (tail : str) :
  Json.hex4 h1 h2 h3 h4 = Some u ->
  Json.is_high_surrogate u = true ->
  Json.hex4 g1 g2 g3 g4 = Some u2 ->
  Json.is_low_surrogate u2 = true ->
  Json.scanstring
    (92 :: 117 :: h1 :: h2 :: h3 :: h4 :: 92 :: 117 :: g1 :: g2 :: g3 :: g4 :: tail)%N
    = Json.cons_char (65536 + ((u - 55296) * 1024 + (u2 - 56320)))%N
        (Json.scanstring tail).
Proof.
  intros Hu Hhigh Hu2 Hlow. cbn [Json.scanstring]. cbn [N.eqb Pos.eqb].
  rewrite Hu, Hhigh, Hu2, Hlow. reflexivity.
Qed.

Lemma scanstring_plain (c : N) (tail : str) :
  (c =? 34)%N = false -> (c =? 92)%N = false -> (c <? 32)%N = false ->
  Json.scanstring (c :: tail) = Json.cons_char c (Json.scanstring tail).
Proof.
  intros H1 H2 H3. cbn [Json.scanstring]. rewrite H1, H2, H3. reflexivity.
Qed.

Lemma scanstring_high (h1 h2 h3 h4 u : N) (r2 : str) :
  Json.hex4 h1 h2 h3 h4 = Some u ->
  Json.is_high_surrogate u = true ->
  Json.scanstring (92 :: 117 :: h1 :: h2 :: h3 :: h4 :: r2)%N =
    match r2 with
    | b :: r3 =>
        if (b =? 92)%N then
          match r3 with
          | u' :: r4 =>
              if (u' =? 117)%N then
                match r4 with
                | g1 :: g2 :: g3 :: g4 :: r5 =>
                    match Json.hex4 g1 g2 g3 g4 with
                    | None => None
                    | Some u2 =>
                        if Json.is_low_surrogate u2 then
                          Json.cons_char
                            (65536 + ((u - 55296) * 1024 + (u2 - 56320)))%N
                            (Json.scanstring r5)
                        else Json.cons_char u (Json.scanstring r2)
                    end
                | _ => None
                end
              else Json.cons_char u (Json.scanstring r2)
          | [] => None
          end
        else Json.cons_char u (Json.scanstring r2)
    | [] => None
    end.
Proof.
  intros Hu Hhigh. cbn [Json.scanstring]. cbn [N.eqb Pos.eqb].
  rewrite Hu, Hhigh. reflexivity.
Qed.

(** After the escape of a high surrogate, the escape of a character
    that is not a low surrogate is not taken for the second half of a
    pair. *)
Lemma scanstring_high_then (h1 h2 h3 h4 u d : N) (tail : str) :
  Json.hex4 h1 h2 h3 h4 = Some u ->
  Json.is_high_surrogate u = true ->
  (d <= 1114111)%N -> Json.is_low_surrogate d = false ->
  Json.scanstring (92 :: 117 :: h1 :: h2 :: h3 :: h4 :: Json.escape_char d ++ tail)%N
    = Json.cons_char u (Json.scanstring (Json.escape_char d ++ tail)).
Proof.
  intros Hu Hhigh Hmax Hlow. rewrite (scanstring_high _ _ _ _ _ _ Hu Hhigh).
  unfold Json.escape_char.
  destruct (N.eqb_spec d 34) as [->|H34]; [reflexivity|].
  destruct (N.eqb_spec d 92) as [->|H92]; [reflexivity|].
  destruct (N.eqb_spec d 10) as [->|H10]; [reflexivity|].
  destruct (N.eqb_spec d 13) as [->|H13]; [reflexivity|].
  destruct (N.eqb_spec d 9) as [->|H9]; [reflexivity|].
  destruct (N.eqb_spec d 8) as [->|H8]; [reflexivity|].
  destruct (N.eqb_spec d 12) as [->|H12]; [reflexivity|].
  destruct ((32 <=? d) && (d <=? 126))%N eqn:Eprint.
  - cbn [app]. apply N.eqb_neq in H92. rewrite H92. reflexivity.
  - destruct (N.ltb_spec d 65536) as [Hsmall|Hbig].
    + unfold Json.escape_u. cbn [app]. cbn [N.eqb Pos.eqb].
      rewrite (hex4_escape d Hsmall), Hlow. reflexivity.
    + unfold Json.escape_u. cbn [app]. cbn [N.eqb Pos.eqb].
      set (hi := (55296 + (d - 65536) / 1024 mod 1024)%N).
      assert (Hhi : (55296 <= hi <= 56319)%N).
      { subst hi.
        assert (H : ((d - 65536) / 1024 mod 1024 < 1024)%N)
          by (apply N.mod_lt; discriminate).
        revert H. generalize ((d - 65536) / 1024 mod 1024)%N. lia. }
      rewrite (hex4_escape hi) by lia.
      replace (Json.is_low_surrogate hi) with false; [reflexivity|].
      symmetry. unfold Json.is_low_surrogate. apply andb_false_iff.
      left. apply N.leb_gt. lia.
Qed.

Lemma scanstring_escape_char (c : N) (tail : str) :
  (c <= 1114111)%N ->
  (Json.is_high_surrogate c = true ->
   (exists rest, tail = 34%N :: rest) \/
   (exists d tail', tail = Json.escape_char d ++ tail' /\
                    (d <= 1114111)%N /\ Json.is_low_surrogate d = false)) ->
  Json.scanstring (Json.escape_char c ++ tail)
    = Json.cons_char c (Json.scanstring tail).
Proof.
  intros Hmax Hnext. unfold Json.escape_char.
  destruct (N.eqb_spec c 34) as [->|H34]; [reflexivity|].
  destruct (N.eqb_spec c 92) as [->|H92]; [reflexivity|].
  destruct (N.eqb_spec c 10) as [->|H10]; [reflexivity|].
  destruct (N.eqb_spec c 13) as [->|H13]; [reflexivity|].
  destruct (N.eqb_spec c 9) as [->|H9]; [reflexivity|].
  destruct (N.eqb_spec c 8) as [->|H8]; [reflexivity|].
  destruct (N.eqb_spec c 12) as [->|H12]; [reflexivity|].
  destruct ((32 <=? c) && (c <=? 126))%N eqn:Eprint.
  - apply andb_true_iff in Eprint. destruct Eprint as [Hlo Hhi].
    apply N.leb_le in Hlo. cbn [app].
    apply scanstring_plain.
    + apply N.eqb_neq; assumption.
    + apply N.eqb_neq; assumption.
    + apply N.ltb_ge; assumption.
  - destruct (N.ltb_spec c 65536) as [Hsmall|Hbig].
    + unfold Json.escape_u. cbn [app].
      destruct (Json.is_high_surrogate c) eqn:Ehigh.
      * destruct (Hnext eq_refl) as [[rest ->] | (d & tail' & -> & Hd & Hlow)].
        -- rewrite (scanstring_high _ _ _ _ c _ (hex4_escape c Hsmall) Ehigh).
           reflexivity.
        -- apply scanstring_high_then; auto. apply hex4_escape; assumption.
      * apply scanstring_u; [apply hex4_escape; assumption | exact Ehigh].
    + unfold Json.escape_u. cbn [app].
      set (hi := (55296 + (c - 65536) / 1024 mod 1024)%N).
      set (lo := (56320 + (c - 65536) mod 1024)%N).
      assert (Hhi : (55296 <= hi <= 56319)%N).
      { subst hi.
        assert (H : ((c - 65536) / 1024 mod 1024 < 1024)%N)
          by (apply N.mod_lt; discriminate).
        revert H. generalize ((c - 65536) / 1024 mod 1024)%N. lia. }
      assert (Hlo : (56320 <= lo <= 57343)%N).
      { subst lo.
        assert (H : ((c - 65536) mod 1024 < 1024)%N)
          by (apply N.mod_lt; discriminate).
        revert H. generalize ((c - 65536) mod 1024)%N. lia. }
      rewrite (scanstring_pair _ _ _ _ _ _ _ _ hi lo).
      * f_equal. subst hi lo. zify. Z.to_euclidean_division_equations. lia.
      * apply hex4_escape. lia.
      * unfold Json.is_high_surrogate. apply andb_true_iff.
        split; apply N.leb_le; lia.
      * apply hex4_escape. lia.
      * unfold Json.is_low_surrogate. apply andb_true_iff.
        split; apply N.leb_le; lia.
Qed.

Lemma is_text_cons (c : N) (s : str) :
  is_text (c :: s) = true ->
  (c <= 1114111)%N /\
  (Json.is_high_surrogate c = true ->
   match s with
   | d :: _ => Json.is_low_surrogate d = false
   | [] => True
   end) /\
  is_text s = true.
Proof.
  cbn [is_text]. rewrite !andb_true_iff, negb_true_iff, andb_false_iff.
  intros [[Hmax Hpair] Hs]. split; [apply N.leb_le; exact Hmax|].
  split; [|exact Hs].
  intros Hhigh. destruct Hpair as [Hpair | Hpair]; [congruence|].
  destruct s; [exact I | exact Hpair].
Qed.

Lemma scanstring_encode (s rest : str) :
  is_text s = true ->
  Json.scanstring (flat_map Json.escape_char s ++ 34%N :: rest) = Some (s, rest).
Proof.
  induction s as [|c s IH]; intros Hs.
  - reflexivity.
  - apply is_text_cons in Hs. destruct Hs as (Hmax & Hpair & Hs).
    cbn [flat_map]. rewrite <- app_assoc, scanstring_escape_char.
    + rewrite (IH Hs). reflexivity.
    + exact Hmax.
    + intros Hhigh. specialize (Hpair Hhigh). destruct s as [|d s].
      * left. exists rest. reflexivity.
      * right. exists d, (flat_map Json.escape_char s ++ 34%N :: rest).
        apply is_text_cons in Hs. destruct Hs as (Hd & _ & _).
        cbn [flat_map]. rewrite <- app_assoc. auto.
Qed.

(** ** The JSON encoder and decoder: numbers *)

Lemma span_digits_nil (rest : str) :
  delimited rest -> Json.span_digits rest = ([], rest).
Proof.
  destruct rest as [|c rest]; simpl; [reflexivity|].
  intros [-> _]. reflexivity.
Qed.

Lemma span_digits_app (s ds r rest : str) :
  Json.span_digits s = (ds, r) -> delimited rest ->
  Json.span_digits (s ++ rest) = (ds, r ++ rest).
Proof.
  revert ds r; induction s as [|c s IH]; intros ds r H Hrest.
  - injection H as <- <-. apply span_digits_nil. exact Hrest.
  - cbn [app Json.span_digits] in *.
    destruct (Json.is_digit c).
    + destruct (Json.span_digits s) as [ds' r'].
      injection H as <- <-. rewrite (IH ds' r' eq_refl Hrest). reflexivity.
    + injection H as <- <-. reflexivity.
Qed.

Lemma scan_int_app (s i r rest : str) :
  Json.scan_int s = Some (i, r) -> delimited rest ->
  Json.scan_int (s ++ rest) = Some (i, r ++ rest).
Proof.
  intros H Hrest. unfold Json.scan_int in *.
  destruct s as [|c s]; [discriminate|]. cbn [app].
  destruct (c =? 45)%N.
  - destruct s as [|d s]; [discriminate|]. cbn [app].
    destruct (d =? 48)%N; [injection H as <- <-; reflexivity|].
    destruct (Json.is_digit d); [|discriminate].
    destruct (Json.span_digits s) as [ds r'] eqn:E.
    injection H as <- <-. rewrite (span_digits_app _ _ _ _ E Hrest). reflexivity.
  - destruct (c =? 48)%N; [injection H as <- <-; reflexivity|].
    destruct (Json.is_digit c); [|discriminate].
    destruct (Json.span_digits s) as [ds r'] eqn:E.
    injection H as <- <-. rewrite (span_digits_app _ _ _ _ E Hrest). reflexivity.
Qed.

Lemma scan_exp_app (s e rest : str) :
  Json.scan_exp s = (e, []) -> delimited rest ->
  Json.scan_exp (s ++ rest) = (e, rest).
Proof.
  intros H Hrest. unfold Json.scan_exp in *.
  destruct s as [|c s].
  - injection H as <-. destruct rest as [|c rest]; [reflexivity|].
    destruct Hrest as (_ & _ & He & HE).
    apply N.eqb_neq in He, HE. cbn [app]. rewrite He, HE. reflexivity.
  - cbn [app]. destruct ((c =? 101) || (c =? 69))%N; [|discriminate].
    destruct s as [|g s].
    + discriminate.
    + cbn [app]. destruct ((g =? 45) || (g =? 43))%N.
      * destruct (Json.span_digits s) as [ds r'] eqn:E.
        rewrite (span_digits_app _ _ _ _ E Hrest).
        destruct ds; [discriminate|]. injection H as <- ->. reflexivity.
      * destruct (Json.span_digits (g :: s)) as [ds r'] eqn:E.
        rewrite app_comm_cons, (span_digits_app _ _ _ _ E Hrest).
        destruct ds; [discriminate|]. injection H as <- ->. reflexivity.
Qed.

Lemma scan_frac_app (s f r e rest : str) :
  Json.scan_frac s = (f, r) -> Json.scan_exp r = (e, []) -> delimited rest ->
  Json.scan_frac (s ++ rest) = (f, r ++ rest).
Proof.
  intros H He Hrest. unfold Json.scan_frac in *.
  destruct s as [|c s].
  - injection H as <- <-. destruct rest as [|c rest]; [reflexivity|].
    destruct Hrest as (_ & Hdot & _).
    apply N.eqb_neq in Hdot. cbn [app]. rewrite Hdot. reflexivity.
  - cbn [app]. destruct (c =? 46)%N eqn:Ec.
    + destruct (Json.span_digits s) as [ds r'] eqn:E.
      rewrite (span_digits_app _ _ _ _ E Hrest).
      destruct ds.
      * injection H as <- <-. apply N.eqb_eq in Ec. subst c.
        discriminate.
      * injection H as <- <-. reflexivity.
    + injection H as <- <-. reflexivity.
Qed.

Lemma scan_number_app (lit lit' rest : str) :
  Json.scan_number lit = Some (lit', []) -> delimited rest ->
  Json.scan_number (lit ++ rest) = Some (lit', rest).
Proof.
  intros H Hrest. unfold Json.scan_number in *.
  destruct (Json.scan_int lit) as [[i r0]|] eqn:Ei; [|discriminate].
  destruct (Json.scan_frac r0) as [f r1] eqn:Ef.
  destruct (Json.scan_exp r1) as [e r2] eqn:Ee.
  injection H as <- ->.
  rewrite (scan_int_app _ _ _ _ Ei Hrest).
  rewrite (scan_frac_app _ _ _ _ _ Ef Ee Hrest).
  rewrite (scan_exp_app _ _ _ Ee Hrest). reflexivity.
Qed.

(** ** The JSON encoder and decoder: values *)

Lemma pyval_induction (P : pyval -> Prop) :
  P JNull -> (forall b, P (JBool b)) -> (forall lit, P (JNumber lit)) ->
  (forall s, P (JString s)) ->
  (forall l, Forall P l -> P (JList l)) ->
  (forall d, Forall (fun kv => P (snd kv)) d -> P (JDict d)) ->
  forall v, P v.
Proof.
  intros Hnull Hbool Hnum Hstr Hlist Hdict. fix IH 1. intros [| b | lit | s | l | d].
  - exact Hnull.
  - apply Hbool.
  - apply Hnum.
  - apply Hstr.
  - apply Hlist. induction l as [|x l IHl]; constructor; [apply IH | exact IHl].
  - apply Hdict. induction d as [|[k x] d IHd]; constructor; [apply IH | exact IHd].
Qed.

Lemma skip_ws_starts (s : str) : starts_value s = true -> Json.skip_ws s = s.
Proof.
  destruct s as [|c s]; [reflexivity|]. cbn [starts_value Json.skip_ws].
  destruct (Json.is_ws c); [discriminate | reflexivity].
Qed.

Lemma parse_value_string (f : nat) (s rest : str) :
  is_text s = true ->
  Json.parse_value (S f) (Json.encode_string s ++ rest) = Json.Parsed (JString s) rest.
Proof.
  intros Hs. unfold Json.encode_string.
  rewrite <- app_comm_cons, <- app_assoc. cbn [app Json.parse_value].
  cbn [N.eqb Pos.eqb]. rewrite (scanstring_encode s rest Hs). reflexivity.
Qed.

Lemma parse_value_digit (f : nat) (c : N) (r lit rest : str) :
  Json.is_digit c = true ->
  Json.scan_number (c :: r) = Some (lit, rest) ->
  Json.parse_value (S f) (c :: r) = Json.Parsed (JNumber lit) rest.
Proof.
  intros Hc Hscan. unfold Json.is_digit in Hc.
  apply andb_true_iff in Hc. destruct Hc as [Hlo Hhi].
  apply N.leb_le in Hlo, Hhi.
  cbn [Json.parse_value].
  repeat match goal with
         | |- context [(c =? ?k)%N] =>
             replace (c =? k)%N with false by (symmetry; apply N.eqb_neq; lia)
         end.
  rewrite Hscan. reflexivity.
Qed.

Lemma parse_value_minus (f : nat) (d : N) (r lit rest : str) :
  Json.is_digit d = true ->
  Json.scan_number (45 :: d :: r)%N = Some (lit, rest) ->
  Json.parse_value (S f) (45 :: d :: r)%N = Json.Parsed (JNumber lit) rest.
Proof.
  intros Hd Hscan. unfold Json.is_digit in Hd.
  apply andb_true_iff in Hd. destruct Hd as [Hlo Hhi].
  apply N.leb_le in Hlo, Hhi.
  cbn [Json.parse_value]. cbn [N.eqb Pos.eqb].
  replace (after (py "Infinity") (d :: r)) with (@None str).
  - rewrite Hscan. reflexivity.
  - change (py "Infinity") with (73 :: py "nfinity")%N. cbn [after].
    replace (73 =? d)%N with false by (symmetry; apply N.eqb_neq; lia).
    reflexivity.
Qed.

Lemma scan_number_head (s lit rest : str) :
  Json.scan_number s = Some (lit, rest) ->
  (exists c r, s = c :: r /\ Json.is_digit c = true) \/
  (exists d r, s = 45%N :: d :: r /\ Json.is_digit d = true).
Proof.
  unfold Json.scan_number, Json.scan_int. intros H.
  destruct s as [|c s]; [discriminate|].
  destruct (c =? 45)%N eqn:Ec.
  - apply N.eqb_eq in Ec. subst c. right.
    destruct s as [|d s]; [discriminate|].
    destruct (N.eqb_spec d 48) as [->|_]; [eauto|].
    destruct (Json.is_digit d) eqn:Ed; [eauto | discriminate].
  - left. destruct (N.eqb_spec c 48) as [->|_]; [eauto|].
    destruct (Json.is_digit c) eqn:Ed; [eauto | discriminate].
Qed.

Lemma parse_value_number (f : nat) (lit rest : str) :
  number_literal lit = true -> delimited rest ->
  Json.parse_value (S f) (lit ++ rest) = Json.Parsed (JNumber lit) rest.
Proof.
  intros Hlit Hrest. unfold number_literal in Hlit.
  rewrite !orb_true_iff in Hlit.
  destruct Hlit as [[[Hscan | Hnan] | Hinf] | Hninf].
  - destruct (Json.scan_number lit) as [[lit' [|]]|] eqn:E; try discriminate.
    pose proof (scan_number_eq _ _ _ E) as [Heq _].
    rewrite app_nil_r in Heq. subst lit'.
    pose proof (scan_number_app _ _ _ E Hrest) as Happ.
    destruct (scan_number_head _ _ _ E) as [(c & r & -> & Hc) | (d & r & -> & Hd)].
    + apply parse_value_digit; assumption.
    + apply parse_value_minus; assumption.
  - apply str_eqb_eq in Hnan. subst lit. reflexivity.
  - apply str_eqb_eq in Hinf. subst lit. reflexivity.
  - apply str_eqb_eq in Hninf. subst lit. reflexivity.
Qed.

Lemma starts_value_inv (s : str) :
  starts_value s = true ->
  exists c r, s = c :: r /\ Json.is_ws c = false /\ (c =? 93)%N = false /\
              (c =? 125)%N = false /\ (c =? 65279)%N = false.
Proof.
  destruct s as [|c r]; [discriminate|]. cbn [starts_value].
  rewrite !andb_true_iff, !negb_true_iff. intros [[[H1 H2] H3] H4].
  exists c, r. auto.
Qed.

Lemma dumps_starts (v : pyval) (rest : str) :
  plain v = true -> starts_value (Json.dumps v ++ rest) = true.
Proof.
  destruct v as [| [|] | lit | s | l | d]; try reflexivity.
  cbn [plain Json.dumps]. unfold number_literal.
  rewrite !orb_true_iff. intros [[[Hscan | Hnan] | Hinf] | Hninf].
  - destruct (Json.scan_number lit) as [[lit' rest']|] eqn:E; [|discriminate].
    destruct (scan_number_head _ _ _ E) as [(c & r & -> & Hc) | (d & r & -> & Hd)].
    + unfold Json.is_digit in Hc. apply andb_true_iff in Hc.
      destruct Hc as [Hlo Hhi]. apply N.leb_le in Hlo, Hhi.
      cbn [app starts_value]. unfold Json.is_ws.
      repeat match goal with
             | |- context [(c =? ?k)%N] =>
                 replace (c =? k)%N with false by (symmetry; apply N.eqb_neq; lia)
             end.
      reflexivity.
    + reflexivity.
  - apply str_eqb_eq in Hnan. subst lit. reflexivity.
  - apply str_eqb_eq in Hinf. subst lit. reflexivity.
  - apply str_eqb_eq in Hninf. subst lit. reflexivity.
Qed.

Lemma parse_value_list (f : nat) (r : str) :
  starts_value r = true ->
  Json.parse_value (S f) (91%N :: r) =
    match Json.parse_elems f r with
    | Json.Parsed l rest => Json.Parsed (JList l) rest
    | Json.Malformed => Json.Malformed
    | Json.OutOfFuel => Json.OutOfFuel
    end.
Proof.
  intros H. cbn [Json.parse_value]. cbn [N.eqb Pos.eqb].
  rewrite (skip_ws_starts r H).
  destruct (starts_value_inv r H) as (c & r' & -> & _ & H93 & _).
  rewrite H93. reflexivity.
Qed.

Lemma parse_value_dict (f : nat) (r : str) :
  startswith [34%N] r = true ->
  Json.parse_value (S f) (123%N :: r) =
    match Json.parse_members f r with
    | Json.Parsed pairs rest => Json.Parsed (JDict (dict_of_pairs pairs)) rest
    | Json.Malformed => Json.Malformed
    | Json.OutOfFuel => Json.OutOfFuel
    end.
Proof.
  destruct r as [|c r]; [discriminate|]. cbn [startswith].
  rewrite andb_true_r, N.eqb_eq. intros <-. reflexivity.
Qed.

Lemma parse_elems_last (f : nat) (s : str) (v : pyval) (rest : str) :
  Json.parse_value f s = Json.Parsed v (93%N :: rest) ->
  Json.parse_elems (S f) s = Json.Parsed [v] rest.
Proof. intros H. cbn [Json.parse_elems]. rewrite H. reflexivity. Qed.

Lemma parse_elems_more (f : nat) (s s' : str) (v : pyval) (l : list pyval)
    (rest : str) :
  Json.parse_value f s = Json.Parsed v (44 :: 32 :: s')%N ->
  starts_value s' = true ->
  Json.parse_elems f s' = Json.Parsed l rest ->
  Json.parse_elems (S f) s = Json.Parsed (v :: l) rest.
Proof.
  intros H Hs' Hl. cbn [Json.parse_elems]. rewrite H.
  cbn [Json.skip_ws Json.is_ws N.eqb Pos.eqb orb].
  rewrite (skip_ws_starts s' Hs'), Hl. reflexivity.
Qed.

Lemma member_text (k vs : str) :
  Json.encode_string k ++ py ": " ++ vs
    = (34 :: flat_map Json.escape_char k ++ 34 :: 58 :: 32 :: vs)%N.
Proof.
  unfold Json.encode_string. rewrite <- app_comm_cons, <- app_assoc.
  reflexivity.
Qed.

Lemma parse_members_last (f : nat) (k vs : str) (v : pyval) (rest : str) :
  is_text k = true -> starts_value vs = true ->
  Json.parse_value f vs = Json.Parsed v (125%N :: rest) ->
  Json.parse_members (S f) (Json.encode_string k ++ py ": " ++ vs)
    = Json.Parsed [(k, v)] rest.
Proof.
  intros Hk Hvs H. rewrite member_text. cbn [Json.parse_members].
  cbn [N.eqb Pos.eqb]. rewrite (scanstring_encode k _ Hk).
  cbn [Json.skip_ws Json.is_ws N.eqb Pos.eqb orb].
  rewrite (skip_ws_starts vs Hvs), H. reflexivity.
Qed.

Lemma parse_members_more (f : nat) (k vs s' : str) (v : pyval)
    (l : list (str * pyval)) (rest : str) :
  is_text k = true -> starts_value vs = true ->
  Json.parse_value f vs = Json.Parsed v (44 :: 32 :: s')%N ->
  starts_value s' = true ->
  Json.parse_members f s' = Json.Parsed l rest ->
  Json.parse_members (S f) (Json.encode_string k ++ py ": " ++ vs)
    = Json.Parsed ((k, v) :: l) rest.
Proof.
  intros Hk Hvs H Hs' Hl. rewrite member_text. cbn [Json.parse_members].
  cbn [N.eqb Pos.eqb]. rewrite (scanstring_encode k _ Hk).
  cbn [Json.skip_ws Json.is_ws N.eqb Pos.eqb orb].
  rewrite (skip_ws_starts vs Hvs), H.
  cbn [Json.skip_ws Json.is_ws N.eqb Pos.eqb orb].
  rewrite (skip_ws_starts s' Hs'), Hl. reflexivity.
Qed.

Lemma join_starts (l : list pyval) (x : pyval) (rest : str) :
  plain x = true ->
  starts_value (join (py ", ") (map Json.dumps (x :: l)) ++ rest) = true.
Proof.
  intros Hx. cbn [map]. rewrite join_cons, <- app_assoc.
  apply dumps_starts. exact Hx.
Qed.

Lemma parse_elems_dumps (l : list pyval) :
  Forall reads_back l -> forallb plain l = true -> l <> [] ->
  forall fuel rest,
  fold_right (fun x n => S (Nat.max (need x) n)) 0 l <= fuel ->
  Json.parse_elems fuel (join (py ", ") (map Json.dumps l) ++ 93%N :: rest)
    = Json.Parsed l rest.
Proof.
  induction 1 as [|x l Hx Hl IH]; intros Hplain Hne fuel rest Hfuel;
    [congruence|].
  cbn [forallb] in Hplain. apply andb_true_iff in Hplain.
  destruct Hplain as [Hpx Hpl].
  cbn [fold_right] in Hfuel. destruct fuel as [|f]; [lia|].
  cbn [map]. rewrite join_cons. destruct l as [|y l].
  - cbn [map]. rewrite app_nil_r. apply parse_elems_last.
    apply Hx; [exact Hpx | simpl in Hfuel; lia |].
    cbn. repeat split; discriminate.
  - rewrite <- !app_assoc.
    apply parse_elems_more
      with (s' := join (py ", ") (map Json.dumps (y :: l)) ++ 93%N :: rest).
    + apply (Hx Hpx f); [lia|]. cbn. repeat split; discriminate.
    + cbn [forallb] in Hpl. apply andb_true_iff in Hpl.
      apply join_starts. apply Hpl.
    + apply IH; [exact Hpl | discriminate | lia].
Qed.

Lemma members_starts (d : list (str * pyval)) (k : str) (x : pyval) (rest : str) :
  starts_value
    (join (py ", ")
       (map (fun kv => Json.encode_string (fst kv) ++ py ": " ++ Json.dumps (snd kv))
          ((k, x) :: d)) ++ rest) = true.
Proof. cbn [map]. rewrite join_cons. reflexivity. Qed.

Lemma parse_members_dumps (d : list (str * pyval)) :
  Forall (fun kv => reads_back (snd kv)) d ->
  forallb (fun kv => is_text (fst kv)) d = true ->
  forallb (fun kv => plain (snd kv)) d = true -> d <> [] ->
  forall fuel rest,
  fold_right (fun kv n => S (Nat.max (need (snd kv)) n)) 0 d <= fuel ->
  Json.parse_members fuel
    (join (py ", ")
       (map (fun kv => Json.encode_string (fst kv) ++ py ": " ++ Json.dumps (snd kv)) d)
     ++ 125%N :: rest)
    = Json.Parsed d rest.
Proof.
  induction 1 as [|[k x] d Hx Hd IH]; intros Hkeys Hplain Hne fuel rest Hfuel;
    [congruence|].
  cbn [forallb fst snd] in Hkeys, Hplain, Hx.
  apply andb_true_iff in Hkeys, Hplain.
  destruct Hkeys as [Hk Hkeys], Hplain as [Hpx Hpd].
  cbn [fold_right snd] in Hfuel. destruct fuel as [|f]; [lia|].
  cbn [map fst snd]. rewrite join_cons. destruct d as [|[k' y] d].
  - cbn [map]. rewrite app_nil_r, <- !app_assoc.
    apply parse_members_last.
    + exact Hk.
    + apply dumps_starts. exact Hpx.
    + apply Hx; [exact Hpx | simpl in Hfuel; lia |].
      cbn. repeat split; discriminate.
  - rewrite <- !app_assoc.
    apply parse_members_more
      with (s' := join (py ", ")
                    (map (fun kv => Json.encode_string (fst kv) ++ py ": "
                                    ++ Json.dumps (snd kv)) ((k', y) :: d))
                  ++ 125%N :: rest).
    + exact Hk.
    + apply dumps_starts. exact Hpx.
    + apply (Hx Hpx f); [lia|]. cbn. repeat split; discriminate.
    + apply members_starts.
    + apply IH; [exact Hkeys | exact Hpd | discriminate | lia].
Qed.

Lemma str_eqb_sym (a b : str) : str_eqb a b = str_eqb b a.
Proof.
  destruct (str_eqb a b) eqn:E.
  - apply str_eqb_eq in E. subst. symmetry. apply str_eqb_refl.
  - apply str_eqb_neq in E. symmetry. apply str_eqb_neq. congruence.
Qed.

Lemma dict_set_fresh (k : str) (v : pyval) (acc : list (str * pyval)) :
  existsb (fun k' => str_eqb k' k) (map fst acc) = false ->
  dict_set k v acc = acc ++ [(k, v)].
Proof.
  induction acc as [|[k' v'] acc IH]; cbn [map existsb dict_set fst app].
  - reflexivity.
  - rewrite orb_false_iff. intros [-> Hacc]. rewrite (IH Hacc). reflexivity.
Qed.

Lemma distinct_fresh (acc : list str) (k : str) (rest : list str) :
  distinct (acc ++ k :: rest) = true ->
  existsb (fun k' => str_eqb k' k) acc = false.
Proof.
  induction acc as [|a acc IH]; cbn [app distinct existsb]; [reflexivity|].
  rewrite andb_true_iff, negb_true_iff. intros [Ha Hacc].
  rewrite (IH Hacc), orb_false_r.
  rewrite existsb_app in Ha. apply orb_false_iff in Ha.
  destruct Ha as [_ Ha]. cbn [existsb] in Ha.
  apply orb_false_iff in Ha. apply Ha.
Qed.

Lemma fold_dict_set (d acc : list (str * pyval)) :
  distinct (map fst (acc ++ d)) = true ->
  fold_left (fun d kv => dict_set (fst kv) (snd kv) d) d acc = acc ++ d.
Proof.
  revert acc; induction d as [|[k v] d IH]; intros acc Hd; cbn [fold_left].
  - rewrite app_nil_r. reflexivity.
  - cbn [fst snd]. rewrite dict_set_fresh.
    + rewrite IH; rewrite <- app_assoc; [reflexivity | exact Hd].
    + rewrite map_app in Hd. cbn [map fst] in Hd.
      apply (distinct_fresh _ _ _ Hd).
Qed.

Lemma dict_of_pairs_distinct (d : list (str * pyval)) :
  distinct (map fst d) = true -> dict_of_pairs d = d.
Proof. intros Hd. unfold dict_of_pairs. apply (fold_dict_set d []). exact Hd. Qed.

(** Reading the text the encoder wrote gives the value back. *)
Lemma parse_dumps (v : pyval) : reads_back v.
Proof.
  induction v as [| b | lit | s | l IH | d IH] using pyval_induction;
    intros Hplain fuel rest Hfuel Hrest;
    (destruct fuel as [|f]; [simpl in Hfuel; lia|]).
  - reflexivity.
  - destruct b; reflexivity.
  - apply parse_value_number; assumption.
  - apply parse_value_string. exact Hplain.
  - cbn [Json.dumps]. rewrite <- app_comm_cons, <- app_assoc.
    destruct l as [|x l]; [reflexivity|].
    cbn [plain] in Hplain.
    rewrite parse_value_list.
    + cbn [app]. rewrite (parse_elems_dumps (x :: l) IH Hplain); try discriminate.
      * reflexivity.
      * cbn [need] in Hfuel. lia.
    + cbn [forallb] in Hplain. apply andb_true_iff in Hplain.
      apply join_starts. apply Hplain.
  - cbn [Json.dumps]. rewrite <- app_comm_cons, <- app_assoc.
    destruct d as [|[k x] d]; [reflexivity|].
    cbn [plain] in Hplain. rewrite !andb_true_iff in Hplain.
    destruct Hplain as [[Hkeys Hdistinct] Hvalues].
    rewrite parse_value_dict
      by (cbn [map]; rewrite join_cons; reflexivity).
    cbn [app].
    rewrite (parse_members_dumps ((k, x) :: d) IH Hkeys Hvalues);
      try discriminate.
    + rewrite dict_of_pairs_distinct by exact Hdistinct. reflexivity.
    + cbn [need] in Hfuel. lia.
Qed.

Lemma join_length (sep x y : str) (l : list str) :
  List.length (join sep (x :: y :: l))
    = List.length x + List.length sep + List.length (join sep (y :: l)).
Proof.
  change (join sep (x :: y :: l)) with (x ++ sep ++ join sep (y :: l)).
  rewrite !length_app. lia.
Qed.

Lemma fold_need_bound {A : Type} (g : A -> nat) (t : A -> str) (l : list A) :
  Forall (fun a => g a <= List.length (t a) + 1) l ->
  fold_right (fun a n => S (Nat.max (g a) n)) 0 l
    <= List.length (join (py ", ") (map t l)) + 2.
Proof.
  induction 1 as [|a l Ha Hl IH]; [simpl; lia|].
  cbn [fold_right map]. destruct l as [|b l].
  - simpl. lia.
  - cbn [map] in *. rewrite join_length.
    change (List.length (py ", ")) with 2. lia.
Qed.

Lemma need_bound (v : pyval) : need v <= List.length (Json.dumps v) + 1.
Proof.
  induction v as [| b | lit | s | l IH | d IH] using pyval_induction;
    try (simpl; lia).
  - cbn [need Json.dumps]. cbn [List.length]. rewrite length_app.
    cbn [List.length].
    pose proof (fold_need_bound need Json.dumps l IH). lia.
  - cbn [need Json.dumps]. cbn [List.length]. rewrite length_app.
    cbn [List.length].
    pose proof (fold_need_bound (fun kv => need (snd kv))
                  (fun kv => Json.encode_string (fst kv) ++ py ": "
                             ++ Json.dumps (snd kv)) d) as Hd.
    cbv beta in Hd. apply Nat.le_trans with (m := S (List.length
      (join (py ", ")
         (map (fun kv => Json.encode_string (fst kv) ++ py ": "
                         ++ Json.dumps (snd kv)) d)) + 2)).
    + apply le_n_S. apply Hd.
      eapply Forall_impl; [|exact IH]. intros kv Hkv. cbv beta in *.
      rewrite !length_app. lia.
    + lia.
Qed.

(** Round trip of the [json] library: what [dumps] writes for a plain
    value, [loads] reads back as that value. *)
Lemma loads_dumps (v : pyval) : plain v = true -> Json.loads (Json.dumps v) = Ok v.
Proof.
  intros Hplain. unfold Json.loads.
  pose proof (dumps_starts v [] Hplain) as Hstart. rewrite app_nil_r in Hstart.
  destruct (starts_value_inv _ Hstart) as (c & r & Hc & _ & _ & _ & Hbom).
  replace (startswith [65279%N] (Json.dumps v)) with false
    by (rewrite Hc; cbn [startswith]; rewrite N.eqb_sym, Hbom; reflexivity).
  rewrite (skip_ws_starts _ Hstart).
  pose proof (parse_dumps v Hplain (2 * List.length (Json.dumps v) + 2) []) as Hparse.
  rewrite app_nil_r in Hparse. rewrite Hparse.
  - reflexivity.
  - pose proof (need_bound v). lia.
  - exact I.
Qed.

(** ** The validator *)

Ltac unfold_monad :=
  unfold outcome, world_after, bind, lift, ret, raise, logger,
    open_read, open_write, write.

Lemma missing_keys_of_mapping (d : list (str * pyval)) :
  exists missing,
    missing_keys_of required_keys (JDict d) = Ok missing /\
    (missing = [] <-> has_required_keys (JDict d) = true).
Proof.
  cbn [missing_keys_of required_keys py_in rbind has_required_keys].
  destruct (dict_has (py "name") d), (dict_has (py "utterances") d);
    eexists; (split; [reflexivity|]); split; intros H; try reflexivity;
    discriminate.
Qed.

(** On a mapping the validator answers whether both keys are there. *)
Lemma is_valid_mapping (s : str) (d : list (str * pyval)) (w : world) :
  Json.loads s = Ok (JDict d) ->
  outcome (is_valid s) w = Ok (has_required_keys (JDict d)).
Proof.
  intros Hs. unfold is_valid. rewrite Hs.
  destruct (missing_keys_of_mapping d) as (missing & Hm & Hiff).
  unfold_monad. rewrite Hm.
  destruct missing as [|k ks].
  - rewrite (proj1 Hiff eq_refl). reflexivity.
  - destruct (has_required_keys (JDict d)) eqn:E; [|reflexivity].
    destruct Hiff as [_ Hiff]. discriminate (Hiff eq_refl).
Qed.

Lemma is_valid_items_mappings (items : list pyval) (w : world) :
  (forall x, In x items -> exists d, x = JDict d) ->
  outcome (is_valid_items items) w = Ok (forallb has_required_keys items).
Proof.
  revert w; induction items as [|x items IH]; intros w Hmaps.
  - reflexivity.
  - destruct (Hmaps x (or_introl eq_refl)) as [d ->].
    destruct (missing_keys_of_mapping d) as (missing & Hm & Hiff).
    cbn [is_valid_items forallb]. unfold_monad. rewrite Hm.
    destruct missing as [|k ks].
    + rewrite (proj1 Hiff eq_refl). cbn [andb].
      apply IH. intros y Hy. apply Hmaps. right. exact Hy.
    + destruct (has_required_keys (JDict d)) eqn:E; [|reflexivity].
      destruct Hiff as [_ Hiff]. discriminate (Hiff eq_refl).
Qed.

(** On a list of mappings the validator answers whether every one of
    them has both keys. *)
Lemma is_valid_list_of_mappings (s : str) (items : list pyval) (w : world) :
  Json.loads s = Ok (JList items) ->
  (forall x, In x items -> exists d, x = JDict d) ->
  outcome (is_valid s) w = Ok (forallb has_required_keys items).
Proof.
  intros Hs Hmaps. unfold is_valid. rewrite Hs.
  apply is_valid_items_mappings. exact Hmaps.
Qed.

(** A text that is not JSON is invalid: the decoder's error is logged
    and not raised. *)
Lemma is_valid_not_json (s : str) (w : world) :
  Json.loads s = Raise JSONDecodeError ->
  outcome (is_valid s) w = Ok false /\
  logs (world_after (is_valid s) w) = logs w ++ [(ERROR, OfExn JSONDecodeError)].
Proof. intros Hs. unfold is_valid. rewrite Hs. run_monad. auto. Qed.

Lemma loads_raises (s : str) (e : exn) :
  Json.loads s = Raise e -> e = JSONDecodeError.
Proof.
  unfold Json.loads. intros H. break_in H; congruence.
Qed.

(** A scalar (null, a boolean, a number) makes the validator raise. *)
Lemma is_valid_scalar (s : str) (v : pyval) (w : world) :
  Json.loads s = Ok v ->
  match v with JNull | JBool _ | JNumber _ => True | _ => False end ->
  outcome (is_valid s) w = Raise TypeError.
Proof.
  intros Hs Hv. unfold is_valid. rewrite Hs.
  destruct v; try contradiction; reflexivity.
Qed.

(** What the validator's acceptance means on the code: every item
    holds both words in the sense of Python's [in], which for a string
    is being a substring and for a list being an element. *)
Lemma missing_keys_none (item : pyval) :
  missing_keys_of required_keys item = Ok [] ->
  py_in (py "name") item = Ok true /\ py_in (py "utterances") item = Ok true.
Proof.
  cbn [missing_keys_of required_keys rbind].
  destruct (py_in (py "name") item) as [[|]|]; cbn [rbind];
    destruct (py_in (py "utterances") item) as [[|]|]; cbn [rbind];
    intros H; try discriminate; auto.
Qed.

Lemma is_valid_items_accepted (items : list pyval) (w : world) :
  outcome (is_valid_items items) w = Ok true ->
  forall item, In item items ->
  py_in (py "name") item = Ok true /\ py_in (py "utterances") item = Ok true.
Proof.
  revert w; induction items as [|x items IH]; intros w H item Hin.
  - destruct Hin.
  - cbn [is_valid_items] in H. unfold outcome, bind, lift in H.
    destruct (missing_keys_of required_keys x) as [[|k ks]|] eqn:E;
      try discriminate.
    destruct Hin as [<- | Hin].
    + apply missing_keys_none. exact E.
    + apply (IH w H item Hin).
Qed.

Lemma is_valid_accepted (s : str) (w : world) :
  outcome (is_valid s) w = Ok true ->
  exists v, Json.loads s = Ok v /\
  forall item, In item (items_of v) ->
  py_in (py "name") item = Ok true /\ py_in (py "utterances") item = Ok true.
Proof.
  unfold is_valid. destruct (Json.loads s) as [v|e] eqn:Hs.
  - intros H. exists v. split; [reflexivity|].
    destruct v as [| b | lit | x | l | d];
      try (unfold outcome, bind, lift in H;
           match type of H with
           | context [missing_keys_of required_keys ?item] =>
               destruct (missing_keys_of required_keys item) as [[|k ks]|] eqn:E;
               try discriminate;
               intros item' [<- | []]; apply missing_keys_none; exact E
           end).
    apply (is_valid_items_accepted l w H).
  - rewrite (loads_raises s e Hs). discriminate.
Qed.

(** The validator answers, and does not raise, when every item is a
    mapping, a list or a string. *)
Lemma is_valid_items_answers (items : list pyval) (w : world) :
  forallb iterable items = true ->
  exists b, outcome (is_valid_items items) w = Ok b.
Proof.
  revert w; induction items as [|x items IH]; intros w Hit.
  - exists true. reflexivity.
  - cbn [forallb] in Hit. apply andb_true_iff in Hit. destruct Hit as [Hx Hit].
    cbn [is_valid_items]. unfold outcome, bind, lift.
    assert (Hm : exists ms, missing_keys_of required_keys x = Ok ms).
    { destruct x; try discriminate; cbn [missing_keys_of required_keys py_in rbind];
        eauto. }
    destruct Hm as [[|k ks] ->].
    + apply IH. exact Hit.
    + exists false. reflexivity.
Qed.

Lemma is_valid_answers (s : str) (v : pyval) (w : world) :
  Json.loads s = Ok v -> forallb iterable (items_of v) = true ->
  exists b, outcome (is_valid s) w = Ok b.
Proof.
  intros Hs Hit. unfold is_valid. rewrite Hs.
  destruct v as [| b | lit | x | l | d]; try discriminate.
  - unfold outcome, bind, lift.
    cbn [missing_keys_of required_keys py_in rbind].
    destruct (contains (py "name") x), (contains (py "utterances") x);
      simpl; eauto.
  - apply is_valid_items_answers. exact Hit.
  - unfold outcome, bind, lift.
    cbn [missing_keys_of required_keys py_in rbind].
    destruct (dict_has (py "name") d), (dict_has (py "utterances") d);
      simpl; eauto.
Qed.

(** ** Loading and saving *)

(** [from_file] once the file has been read and parsed to [v]. *)
Lemma from_file_value (yaml_safe_load : str -> result pyval)
    (path content : str) (v : pyval) (w : world) :
  files w path = Some content ->
  (snd (Os_path.splitext path) = py ".json" /\ Json.loads content = Ok v) \/
  ((snd (Os_path.splitext path) = py ".yaml" \/
    snd (Os_path.splitext path) = py ".yml") /\ yaml_safe_load content = Ok v) ->
  RouteConfig.from_file yaml_safe_load path w =
    match is_valid (Json.dumps v)
            (mkWorld (files w)
               (logs w ++ [(INFO, Text (py "Loading route config from " ++ path))])
               (write_error w))
    with
    | (Ok true, w') =>
        match rbind (py_iter v) (rmap Route.from_dict) with
        | Ok rs => (Ok (RouteConfig.mk rs), w')
        | Raise e => (Raise e, w')
        end
    | (Ok false, w') => (Raise InvalidConfigError, w')
    | (Raise e, w') => (Raise e, w')
    end.
Proof.
  intros Hfile Hv. unfold RouteConfig.from_file. unfold_monad.
  cbn [files logs]. rewrite Hfile.
  destruct Hv as [[Hext Hl] | [[Hext | Hext] Hl]]; rewrite Hext.
  1: rewrite str_eqb_refl.
  2: change (str_eqb (py ".yaml") (py ".json")) with false;
     change (existsb (str_eqb (py ".yaml")) [py ".yaml"; py ".yml"]) with true.
  3: change (str_eqb (py ".yml") (py ".json")) with false;
     change (existsb (str_eqb (py ".yml")) [py ".yaml"; py ".yml"]) with true.
  all: cbv beta iota; rewrite Hl;
    destruct (is_valid (Json.dumps v) _) as [[[|]|e] w']; try reflexivity;
    destruct (rbind (py_iter v) (rmap Route.from_dict)); reflexivity.
Qed.

(** A payload the validator answers invalid on builds no route:
    loading fails with InvalidConfigError. *)
Lemma from_file_rejected (yaml_safe_load : str -> result pyval)
    (path content : str) (v : pyval) (w : world) :
  files w path = Some content ->
  (snd (Os_path.splitext path) = py ".json" /\ Json.loads content = Ok v) \/
  ((snd (Os_path.splitext path) = py ".yaml" \/
    snd (Os_path.splitext path) = py ".yml") /\ yaml_safe_load content = Ok v) ->
  (forall w', outcome (is_valid (Json.dumps v)) w' = Ok false) ->
  outcome (RouteConfig.from_file yaml_safe_load path) w = Raise InvalidConfigError.
Proof.
  intros Hfile Hload Hinvalid. unfold outcome at 1.
  rewrite (from_file_value yaml_safe_load path content v w Hfile Hload).
  match goal with
  | |- context [is_valid ?s ?w'] =>
      pose proof (Hinvalid w') as H; unfold outcome in H;
      destruct (is_valid s w') as [r w'']
  end.
  simpl in H. subst r. reflexivity.
Qed.

Lemma is_valid_outcome (s : str) (w : world) (b : bool) :
  outcome (is_valid s) w = Ok b -> exists w', is_valid s w = (Ok b, w').
Proof.
  unfold outcome. destruct (is_valid s w) as [r w']. simpl. intros ->. eauto.
Qed.

Lemma keys_are_not_routes (d : list (str * pyval)) :
  d <> [] -> rbind (py_iter (JDict d)) (rmap Route.from_dict) = Raise TypeError.
Proof. destruct d as [|[k x] d]; [congruence | reflexivity]. Qed.

(** C10.  When the file at [path] parses to a single mapping that holds
    the keys [name] and [utterances], [from_file] returns no
    RouteConfig: it raises.  When moreover the mapping is a plain value,
    it passes validation, and the error is the TypeError of building a
    route from the first key of the mapping instead of from the
    mapping. *)
Theorem from_file_single_mapping (yaml_safe_load : str -> result pyval)
    (path content : str) (d : list (str * pyval)) (w : world) :
  files w path = Some content ->
  (snd (Os_path.splitext path) = py ".json" /\ Json.loads content = Ok (JDict d)) \/
  ((snd (Os_path.splitext path) = py ".yaml" \/
    snd (Os_path.splitext path) = py ".yml") /\
   yaml_safe_load content = Ok (JDict d)) ->
  has_required_keys (JDict d) = true ->
  (exists e, outcome (RouteConfig.from_file yaml_safe_load path) w = Raise e) /\
  (plain (JDict d) = true ->
   (forall w', outcome (is_valid (Json.dumps (JDict d))) w' = Ok true) /\
   Route.from_dict (JDict d) <> Raise TypeError /\
   outcome (RouteConfig.from_file yaml_safe_load path) w = Raise TypeError).
Proof.
  intros Hfile Hv Hkeys.
  assert (Hne : d <> []) by (intros ->; discriminate).
  pose proof (from_file_value yaml_safe_load path content (JDict d) w Hfile Hv)
    as Hrun.
  split.
  - unfold outcome. rewrite Hrun.
    destruct (is_valid _ _) as [[[|]|e] w'].
    + rewrite (keys_are_not_routes d Hne). simpl. eauto.
    + simpl. eauto.
    + simpl. eauto.
  - intros Hplain.
    assert (Hvalid : forall w', outcome (is_valid (Json.dumps (JDict d))) w' = Ok true).
    { intros w'. rewrite (is_valid_mapping _ d w' (loads_dumps _ Hplain)).
      rewrite Hkeys. reflexivity. }
    split; [exact Hvalid|]. split.
    + unfold Route.from_dict. break_goal; discriminate.
    + unfold outcome. rewrite Hrun.
      destruct (is_valid_outcome _ _ _ (Hvalid
        (mkWorld (files w)
           (logs w ++ [(INFO, Text (py "Loading route config from " ++ path))])
           (write_error w))))
        as [w' ->].
      rewrite (keys_are_not_routes d Hne). reflexivity.
Qed.

(** A file [route.json] that holds one route as a single mapping. *)
Lemma from_file_single_mapping_witness :
  outcome (RouteConfig.from_file no_yaml_load (py "route.json"))
    (mkWorld (set_file (py "route.json")
                (dq "{'name': 'x', 'utterances': ['a']}") (fun _ => None)) [] (fun _ => None))
    = Raise TypeError /\
  Route.from_dict
    (JDict [(py "name", JString (py "x"));
            (py "utterances", JList [JString (py "a")])])
    = Ok (Route.mk (py "x") [py "a"] None).
Proof.
  split; [|reflexivity].
  apply (from_file_single_mapping no_yaml_load (py "route.json")
           (dq "{'name': 'x', 'utterances': ['a']}")
           [(py "name", JString (py "x"));
            (py "utterances", JList [JString (py "a")])]).
  - reflexivity.
  - left. split; reflexivity.
  - reflexivity.
  - reflexivity.
Defined.

(** ** Persistence *)

Lemma str_list_strings (us : list str) :
  Route.str_list (map JString us) = Some us.
Proof.
  induction us as [|u us IH]; simpl; [reflexivity|]. rewrite IH. reflexivity.
Qed.

Lemma from_dict_to_dict (r : Route.t) : Route.from_dict (Route.to_dict r) = Ok r.
Proof.
  destruct r as [n us [d|]]; simpl; rewrite str_list_strings; reflexivity.
Qed.

Lemma rmap_from_dict (rs : list Route.t) :
  rmap Route.from_dict (map Route.to_dict rs) = Ok rs.
Proof.
  induction rs as [|r rs IH]; [reflexivity|].
  cbn [map rmap]. rewrite from_dict_to_dict, IH. reflexivity.
Qed.

Lemma plain_strings (us : list str) :
  forallb plain (map JString us) = forallb is_text us.
Proof. induction us as [|u us IH]; simpl; [|rewrite IH]; reflexivity. Qed.

Lemma plain_route (r : Route.t) :
  route_is_text r = true -> plain (Route.to_dict r) = true.
Proof.
  unfold route_is_text. rewrite !andb_true_iff. intros [[Hn Hus] Hd].
  unfold Route.to_dict. cbn [plain forallb fst snd map].
  rewrite plain_strings, Hn, Hus.
  destruct (Route.description r); cbn [plain]; rewrite ?Hd; reflexivity.
Qed.

Lemma plain_routes (self : RouteConfig.t) :
  forallb route_is_text (RouteConfig.routes self) = true ->
  plain (RouteConfig.to_dict self) = true.
Proof.
  unfold RouteConfig.to_dict. cbn [plain].
  induction (RouteConfig.routes self) as [|r rs IH]; [reflexivity|].
  cbn [forallb map]. rewrite !andb_true_iff. intros [Hr Hrs].
  split; [apply plain_route; exact Hr | apply IH; exact Hrs].
Qed.

Lemma routes_are_payload (rs : list Route.t) :
  forallb has_required_keys (map Route.to_dict rs) = true.
Proof. induction rs as [|r rs IH]; [reflexivity | exact IH]. Qed.

Lemma is_valid_routes (self : RouteConfig.t) (w : world) :
  forallb route_is_text (RouteConfig.routes self) = true ->
  outcome (is_valid (Json.dumps (RouteConfig.to_dict self))) w = Ok true.
Proof.
  intros Htext.
  rewrite (is_valid_list_of_mappings _ (map Route.to_dict (RouteConfig.routes self))).
  - rewrite routes_are_payload. reflexivity.
  - apply loads_dumps, plain_routes. exact Htext.
  - intros x Hx. apply in_map_iff in Hx. destruct Hx as (r & <- & _).
    unfold Route.to_dict. eauto.
Qed.

Lemma set_file_same (path content : str) (fs : str -> option str) :
  set_file path content fs path = Some content.
Proof. unfold set_file. rewrite str_eqb_refl. reflexivity. Qed.


(** *** Mappings up to the order of their items *)

















(** ** The validator on values that are not mappings *)

(** C4 (the code fails it).  [is_valid] answers invalid on a text that
    is not JSON, but on the texts [null], [1], [true] and [[1]], which
    parse to values that are not iterable, it raises TypeError instead
    of answering. *)
Theorem is_valid_raises_type_error :
  outcome (is_valid (py "{")) empty_world = Ok false /\
  outcome (is_valid (py "null")) empty_world = Raise TypeError /\
  outcome (is_valid (py "1")) empty_world = Raise TypeError /\
  outcome (is_valid (py "true")) empty_world = Raise TypeError /\
  outcome (is_valid (py "[1]")) empty_world = Raise TypeError.
Proof. repeat split; reflexivity. Qed.

(** C2 (the code fails it).  The validator answers invalid on a mapping
    without [utterances], valid on a mapping with both keys, invalid on
    a list of mappings one of which lacks [name]; but on a list that
    holds a number before the mapping that lacks [name] it raises
    instead of answering invalid, and on a list whose one element is a
    string, which has no key, it answers valid. *)
Theorem is_valid_required_keys :
  outcome (is_valid (dq "{'name': 'x'}")) empty_world = Ok false /\
  outcome (is_valid (dq "{'name': 'x', 'utterances': ['a']}")) empty_world
    = Ok true /\
  outcome (is_valid (dq "[{'name': 'x', 'utterances': ['a']}, {'utterances': ['b']}]"))
    empty_world = Ok false /\
  outcome (is_valid (dq "[1, {'utterances': ['b']}]")) empty_world
    = Raise TypeError /\
  outcome (is_valid (dq "['name utterances']")) empty_world = Ok true.
Proof. repeat split; reflexivity. Qed.

(** C1 (the code fails it).  The file [routes.json] holds a list of one
    route mapping and one string.  The payload is not a list of
    mappings, yet the validator accepts it; [from_file] builds the
    first route and then fails with TypeError on the string, not with
    InvalidConfigError.  In the synthesis pipeline a completion whose
    payload is a string is accepted in the same way. *)
Theorem validator_accepts_non_mappings :
  let content := dq "[{'name': 'a', 'utterances': []}, 'name utterances']" in
  let w := mkWorld (set_file (py "routes.json") content (fun _ => None)) [] (fun _ => None) in
  Json.loads content
    = Ok (JList [JDict [(py "name", JString (py "a")); (py "utterances", JList [])];
                 JString (py "name utterances")]) /\
  route_payload
    (JList [JDict [(py "name", JString (py "a")); (py "utterances", JList [])];
            JString (py "name utterances")]) = false /\
  outcome (is_valid content) w = Ok true /\
  Route.from_dict (JDict [(py "name", JString (py "a")); (py "utterances", JList [])])
    = Ok (Route.mk (py "a") [] None) /\
  outcome (RouteConfig.from_file no_yaml_load (py "routes.json")) w
    = Raise TypeError /\
  outcome (Route._agenerate_dynamic_route
             (fun _ => Some (py "<config>" ++ dq "'name utterances'" ++ py "</config>"))
             weather_schema)
    empty_world = Raise TypeError.
Proof. repeat split; reflexivity. Qed.

(** ** The synthesis pipeline, end to end *)

(** The scenario of the specification: the completion holds a mapping
    with the name [get_weather] and five utterances. *)
Example synthesis_scenario :
  outcome (Route._agenerate_dynamic_route
             (fun _ => Some (py "<config>"
                             ++ dq "{'name': 'get_weather', 'utterances': ['a','b','c','d','e']}"
                             ++ py "</config>"))
             weather_schema)
    empty_world
    = Ok (Route.mk (py "get_weather") [py "a"; py "b"; py "c"; py "d"; py "e"] None).
Proof. reflexivity. Qed.

(* ================================================================= *)
(** * Further properties of the module *)

(** ** The validator *)

Lemma is_valid_items_trace (items : list pyval) (w : world) :
  files (world_after (is_valid_items items) w) = files w /\
  exists extra,
    logs (world_after (is_valid_items items) w) = logs w ++ extra /\
    match outcome (is_valid_items items) w with
    | Ok true => extra = []
    | Ok false => List.length extra = 1
    | Raise _ => extra = []
    end.
Proof.
  induction items as [|x items IH].
  - split; [reflexivity|]. exists []. rewrite app_nil_r. split; reflexivity.
  - cbn [is_valid_items]. unfold_monad.
    destruct (missing_keys_of required_keys x) as [[|k ks]|e].
    + exact IH.
    + cbn [fst snd files logs]. split; [reflexivity|]. eexists. split; reflexivity.
    + cbn [fst snd]. split; [reflexivity|]. exists []. rewrite app_nil_r. split; reflexivity.
Qed.

Lemma is_valid_trace (route_config : str) (w : world) :
  files (world_after (is_valid route_config) w) = files w /\
  exists extra,
    logs (world_after (is_valid route_config) w) = logs w ++ extra /\
    match outcome (is_valid route_config) w with
    | Ok true => extra = []
    | Ok false => List.length extra = 1
    | Raise _ => extra = []
    end.
Proof.
  unfold is_valid. destruct (Json.loads route_config) as [v|e] eqn:Hs.
  - assert (Hone : forall item,
      files (world_after
        (missing_keys <- lift (missing_keys_of required_keys item) ;;
         match missing_keys with
         | _ :: _ => logger WARNING (missing_keys_warning missing_keys) ;;; ret false
         | [] => ret true
         end) w) = files w /\
      exists extra,
        logs (world_after
          (missing_keys <- lift (missing_keys_of required_keys item) ;;
           match missing_keys with
           | _ :: _ => logger WARNING (missing_keys_warning missing_keys) ;;; ret false
           | [] => ret true
           end) w) = logs w ++ extra /\
        match outcome
          (missing_keys <- lift (missing_keys_of required_keys item) ;;
           match missing_keys with
           | _ :: _ => logger WARNING (missing_keys_warning missing_keys) ;;; ret false
           | [] => ret true
           end) w with
        | Ok true => extra = []
        | Ok false => List.length extra = 1
        | Raise _ => extra = []
        end).
    { intros item. unfold_monad.
      destruct (missing_keys_of required_keys item) as [[|k ks]|e];
        cbn [fst snd files logs]; (split; [reflexivity|]).
      - exists []. rewrite app_nil_r. split; reflexivity.
      - eexists. split; reflexivity.
      - exists []. rewrite app_nil_r. split; reflexivity. }
    destruct v; try apply Hone. apply is_valid_items_trace.
  - rewrite (loads_raises _ _ Hs). unfold_monad. cbn [fst snd files logs].
    split; [reflexivity|]. eexists. split; reflexivity.
Qed.


(** X2.  On a text that parses to a mapping, or to a list whose
    elements are all mappings, [is_valid] answers and does not raise,
    and its answer is whether every mapping holds both [name] and
    [utterances] among its keys. *)
Theorem is_valid_on_mappings (route_config : str) (v : pyval) (w : world) :
  Json.loads route_config = Ok v ->
  forallb is_mapping (items_of v) = true ->
  outcome (is_valid route_config) w = Ok (forallb has_required_keys (items_of v)).
Proof.
  intros Hs Hmaps. destruct v as [| b | lit | x | l | d]; try discriminate.
  - apply (is_valid_list_of_mappings _ l w Hs).
    intros x Hx. cbn [items_of] in Hmaps. rewrite forallb_forall in Hmaps.
    specialize (Hmaps x Hx). destruct x; try discriminate. eauto.
  - rewrite (is_valid_mapping _ d w Hs). cbn [items_of forallb].
    rewrite andb_true_r. reflexivity.
Qed.

(** A list of two mappings, the second without [name], and a mapping
    with more keys than the two required. *)
Lemma is_valid_on_mappings_witness :
  outcome (is_valid (dq "[{'name': 'a', 'utterances': []}, {'utterances': []}]"))
    empty_world = Ok false /\
  outcome (is_valid (dq "{'utterances': 1, 'name': null, 'extra': {}}"))
    empty_world = Ok true.
Proof.
  split.
  - erewrite is_valid_on_mappings.
    2: vm_compute; reflexivity.
    all: reflexivity.
  - erewrite is_valid_on_mappings.
    2: vm_compute; reflexivity.
    all: reflexivity.
Defined.

Lemma is_valid_items_app_offender (good rest : list pyval)
    (d : list (str * pyval)) (w : world) :
  forallb has_required_keys good = true ->
  has_required_keys (JDict d) = false ->
  outcome (is_valid_items (good ++ JDict d :: rest)) w = Ok false.
Proof.
  revert w; induction good as [|x good IH]; intros w Hgood Hbad.
  - cbn [app is_valid_items]. unfold_monad.
    destruct (missing_keys_of_mapping d) as (missing & -> & Hiff).
    destruct missing as [|k ks]; [|reflexivity].
    rewrite (proj1 Hiff eq_refl) in Hbad. discriminate.
  - cbn [forallb] in Hgood. apply andb_true_iff in Hgood.
    destruct Hgood as [Hx Hgood].
    destruct x as [| | | | |dx]; try discriminate.
    cbn [app is_valid_items]. unfold_monad.
    destruct (missing_keys_of_mapping dx) as (missing & -> & Hiff).
    destruct missing as [|k ks].
    + apply IH; assumption.
    + destruct Hiff as [_ Hiff]. discriminate (Hiff Hx).
Qed.

(** X3.  The validator stops at the first mapping of a list that lacks
    a required key: when the mappings before it hold both keys, the
    answer is invalid whatever follows it in the list, be it a value on
    which the validator would raise. *)
Theorem is_valid_stops_at_first_offender (route_config : str)
    (good rest : list pyval) (d : list (str * pyval)) (w : world) :
  Json.loads route_config = Ok (JList (good ++ JDict d :: rest)) ->
  forallb has_required_keys good = true ->
  has_required_keys (JDict d) = false ->
  outcome (is_valid route_config) w = Ok false.
Proof.
  intros Hs Hgood Hbad. unfold is_valid. rewrite Hs.
  apply is_valid_items_app_offender; assumption.
Qed.

(** A mapping without [utterances] stands before a number. *)
Lemma is_valid_stops_at_first_offender_witness :
  outcome (is_valid (dq "[{'name': 'a', 'utterances': []}, {'name': 'b'}, 1]"))
    empty_world = Ok false /\
  outcome (is_valid (dq "[{'name': 'a', 'utterances': []}, 1, {'name': 'b'}]"))
    empty_world = Raise TypeError.
Proof.
  split; [|reflexivity].
  apply (is_valid_stops_at_first_offender _
           [JDict [(py "name", JString (py "a")); (py "utterances", JList [])]]
           [JNumber (py "1")]
           [(py "name", JString (py "b"))]);
    reflexivity.
Defined.

(** ** Routes and mappings *)

Lemma dict_get_has (k : str) (d : list (str * pyval)) :
  dict_has k d = false <-> dict_get k d = None.
Proof.
  induction d as [|[k' v] d IH]; cbn [dict_has dict_get]; [tauto|].
  destruct (str_eqb k' k); cbn [orb]; [split; discriminate | exact IH].
Qed.

(** X4.  [Route.from_dict] gives back the route whose [to_dict] it is
    handed: every route survives the passage through its mapping. *)
Theorem route_dict_roundtrip (r : Route.t) :
  Route.from_dict (Route.to_dict r) = Ok r /\
  has_required_keys (Route.to_dict r) = true.
Proof.
  split; [|reflexivity].
  destruct r as [n us [d|]]; simpl; rewrite str_list_strings; reflexivity.
Qed.

(** X5.  [Route.from_dict] builds no route from a value that is not a
    mapping (TypeError) nor from a mapping that lacks [name] or
    [utterances] (ValidationError): a mapping from which it builds a
    route is one the validator accepts. *)
Theorem from_dict_needs_required_keys (data : pyval) :
  (is_mapping data = false -> Route.from_dict data = Raise TypeError) /\
  (is_mapping data = true -> has_required_keys data = false ->
   Route.from_dict data = Raise ValidationError) /\
  (forall r, Route.from_dict data = Ok r -> has_required_keys data = true).
Proof.
  assert (Hmissing : is_mapping data = true -> has_required_keys data = false ->
                     Route.from_dict data = Raise ValidationError).
  { destruct data as [| | | | |d]; try discriminate. intros _.
    cbn [has_required_keys Route.from_dict]. rewrite andb_false_iff.
    intros [H | H]; apply dict_get_has in H; rewrite H.
    - reflexivity.
    - destruct (dict_get (py "name") d) as [[]|]; reflexivity. }
  split; [|split; [exact Hmissing|]].
  - destruct data; try discriminate; reflexivity.
  - intros r Hr. destruct (has_required_keys data) eqn:E; [reflexivity|].
    destruct (is_mapping data) eqn:Em.
    + rewrite (Hmissing eq_refl eq_refl) in Hr. discriminate.
    + destruct data; try discriminate Em; discriminate Hr.
Qed.

(** A string, and a mapping without [utterances]. *)
Lemma from_dict_needs_required_keys_witness :
  Route.from_dict (JString (py "name")) = Raise TypeError /\
  Route.from_dict (JDict [(py "name", JString (py "a"))]) = Raise ValidationError.
Proof.
  split.
  - apply (proj1 (from_dict_needs_required_keys (JString (py "name")))).
    reflexivity.
  - apply (proj1 (proj2 (from_dict_needs_required_keys
                           (JDict [(py "name", JString (py "a"))]))));
      reflexivity.
Defined.

(** ** Extraction of the payload, in general *)

Lemma open_tag_no_straddle (x c : str) :
  x <> [] ->
  startswith Re.open_tag (x ++ Re.open_tag ++ c) = true ->
  startswith Re.open_tag x = true.
Proof.
  rewrite open_tag_chars. intros Hx H.
  destruct x as [|x1 [|x2 [|x3 [|x4 [|x5 [|x6 [|x7 [|x8 x]]]]]]]];
    try congruence; simpl in *;
    repeat (apply andb_true_iff in H; destruct H as [? H]);
    try discriminate.
  repeat (apply andb_true_iff; split); assumption.
Qed.

Lemma lazy_group_no_close (s g : str) :
  Re.lazy_group s = Some g -> contains Re.close_tag g = false.
Proof.
  revert g; induction s as [|x s IH]; intros g; rewrite lazy_group_unfold.
  - destruct (startswith Re.close_tag []); [|discriminate].
    intros [= <-]. reflexivity.
  - destruct (startswith Re.close_tag (x :: s)) eqn:E.
    + intros [= <-]. reflexivity.
    + destruct (Re.lazy_group s) as [g'|] eqn:G; [|discriminate].
      intros [= <-]. cbn [contains]. rewrite (IH g' eq_refl), orb_false_r.
      destruct (startswith Re.close_tag (x :: g')) eqn:E'; [|reflexivity].
      apply startswith_spec in E'. destruct E' as [r Hr].
      destruct (lazy_group_sound _ _ G) as [c Hc].
      assert (Hs : startswith Re.close_tag (x :: s) = true).
      { apply startswith_spec. rewrite Hc, app_comm_cons, Hr.
        rewrite <- app_assoc. eauto. }
      congruence.
Qed.

Lemma search_first (a g rest : str) :
  contains Re.open_tag a = false ->
  contains Re.close_tag g = false ->
  Re.search (a ++ Re.open_tag ++ g ++ Re.close_tag ++ rest) = Some g.
Proof.
  intros Ha Hg. induction a as [|x a IH].
  - rewrite app_nil_l, search_unfold. unfold Re.match_here.
    rewrite after_app, (lazy_group_shortest g rest Hg). reflexivity.
  - cbn [contains] in Ha. apply orb_false_iff in Ha. destruct Ha as [Hx Ha].
    rewrite search_unfold. unfold Re.match_here.
    destruct (after Re.open_tag
                ((x :: a) ++ Re.open_tag ++ g ++ Re.close_tag ++ rest))
      as [r|] eqn:E.
    + apply after_spec in E.
      assert (Hs : startswith Re.open_tag
                     ((x :: a) ++ Re.open_tag ++ g ++ Re.close_tag ++ rest) = true)
        by (apply startswith_spec; eauto).
      apply open_tag_no_straddle in Hs; congruence.
    + cbn [app]. apply IH. exact Ha.
Qed.

(** X6.  The extraction returns the first block: when no opening tag
    stands in the text before an opening tag, and no closing tag in the
    text [g] between that tag and a closing tag, the result is [g]
    stripped, whatever follows the closing tag, further blocks
    included. *)
Theorem extract_first_block (before g rest : str) :
  contains Re.open_tag before = false ->
  contains Re.close_tag g = false ->
  Route._parse_route_config
    (before ++ Re.open_tag ++ g ++ Re.close_tag ++ rest) = Ok (strip g).
Proof.
  intros Hb Hg. unfold Route._parse_route_config.
  rewrite (search_first before g rest Hb Hg). reflexivity.
Qed.

(** Two blocks in a sentence: the first is returned. *)
Lemma extract_first_block_witness :
  Route._parse_route_config
    (py "Sure: <config> {'name': 'a'} </config> or <config>{}</config>.")
    = Ok (py "{'name': 'a'}").
Proof.
  apply (extract_first_block (py "Sure: ") (py " {'name': 'a'} ")
           (py " or <config>{}</config>.")); reflexivity.
Defined.

(** X7.  Whatever the extraction returns was cut out of the text
    between an opening tag and the first closing tag after it, and
    stripped: the text between the two tags holds no closing tag, and
    the result neither starts nor ends with white space. *)
Theorem extract_result (text config : str) :
  Route._parse_route_config text = Ok config ->
  (exists before g rest,
     text = before ++ Re.open_tag ++ g ++ Re.close_tag ++ rest /\
     contains Re.close_tag g = false /\
     config = strip g) /\
  match config with [] => True | c :: _ => isspace c = false end /\
  match rev config with [] => True | c :: _ => isspace c = false end.
Proof.
  unfold Route._parse_route_config.
  destruct (Re.search text) as [g|] eqn:E; [|discriminate].
  intros [= <-]. split.
  - assert (Hg : contains Re.close_tag g = false).
    { clear -E. induction text as [|x text IH]; rewrite search_unfold in E;
        unfold Re.match_here in E.
      - destruct (after Re.open_tag []) as [r|]; [|discriminate].
        destruct (Re.lazy_group r) eqn:G; [|discriminate].
        injection E as ->. apply (lazy_group_no_close _ _ G).
      - destruct (after Re.open_tag (x :: text)) as [r|].
        + destruct (Re.lazy_group r) eqn:G.
          * injection E as ->. apply (lazy_group_no_close _ _ G).
          * apply IH. exact E.
        + apply IH. exact E. }
    destruct (search_sound _ _ E) as (a & c & ->).
    exists a, g, c. auto.
  - destruct (strip_spec g) as (l & r & _ & _ & _ & Hhead & Htail). auto.
Qed.

(** The text of the witness above. *)
Lemma extract_result_witness :
  (exists before g rest,
     py "Sure: <config> {'name': 'a'} </config> or <config>{}</config>."
       = before ++ Re.open_tag ++ g ++ Re.close_tag ++ rest /\
     contains Re.close_tag g = false /\
     py "{'name': 'a'}" = strip g) /\
  match py "{'name': 'a'}" with [] => True | c :: _ => isspace c = false end /\
  match rev (py "{'name': 'a'}") with [] => True | c :: _ => isspace c = false end.
Proof.
  apply (extract_result
           (py "Sure: <config> {'name': 'a'} </config> or <config>{}</config>.")
           (py "{'name': 'a'}")).
  reflexivity.
Defined.

(** ** Adding, looking up and removing routes *)

Lemma get_from_app (l : list Route.t) (route : Route.t) (name : str) :
  RouteConfig.get_from (l ++ [route]) name =
    match RouteConfig.get_from l name with
    | Ok r => Ok r
    | Raise e => if str_eqb (Route.name route) name then Ok route else Raise e
    end.
Proof.
  induction l as [|x l IH]; cbn [app RouteConfig.get_from].
  - destruct (str_eqb (Route.name route) name); reflexivity.
  - destruct (str_eqb (Route.name x) name); [reflexivity | exact IH].
Qed.

Lemma get_from_raises (l : list Route.t) (name : str) (e : exn) :
  RouteConfig.get_from l name = Raise e -> e = RouteNotFoundError name.
Proof.
  induction l as [|x l IH]; cbn [RouteConfig.get_from].
  - intros [= <-]. reflexivity.
  - destruct (str_eqb (Route.name x) name); [discriminate | exact IH].
Qed.

(** X8.  [add] never raises and puts the route last.  A lookup by the
    name of the added route then succeeds: it returns the added route
    when no route had that name, and the earlier route of that name
    otherwise; the lookup of any other name is as it was. *)
Theorem add_then_get (self : RouteConfig.t) (route : Route.t) (w : world) :
  exists self',
    outcome (RouteConfig.add self route) w = Ok self' /\
    RouteConfig.routes self' = RouteConfig.routes self ++ [route] /\
    RouteConfig.get self' (Route.name route) =
      match RouteConfig.get self (Route.name route) with
      | Ok earlier => Ok earlier
      | Raise _ => Ok route
      end /\
    (forall name, name <> Route.name route ->
       RouteConfig.get self' name = RouteConfig.get self name).
Proof.
  eexists. split; [reflexivity|]. split; [reflexivity|].
  unfold RouteConfig.get. cbn [RouteConfig.routes]. split.
  - rewrite get_from_app, str_eqb_refl. reflexivity.
  - intros name Hname. rewrite get_from_app.
    destruct (RouteConfig.get_from (RouteConfig.routes self) name); [reflexivity|].
    replace (str_eqb (Route.name route) name) with false; [reflexivity|].
    symmetry. apply str_eqb_neq. congruence.
Qed.

Lemma get_from_filter_other (l : list Route.t) (name other : str) :
  other <> name ->
  RouteConfig.get_from
    (filter (fun route => negb (str_eqb (Route.name route) name)) l) other
  = RouteConfig.get_from l other.
Proof.
  intros Hne. induction l as [|x l IH]; [reflexivity|].
  cbn [filter RouteConfig.get_from].
  destruct (str_eqb (Route.name x) name) eqn:E; cbn [negb].
  - apply str_eqb_eq in E.
    replace (str_eqb (Route.name x) other) with false; [exact IH|].
    symmetry. apply str_eqb_neq. congruence.
  - cbn [RouteConfig.get_from].
    destruct (str_eqb (Route.name x) other); [reflexivity | exact IH].
Qed.

Lemma filter_names_absent (l : list Route.t) (name : str) :
  forall r,
  In r (filter (fun route => negb (str_eqb (Route.name route) name)) l) ->
  Route.name r <> name.
Proof.
  intros r Hr. apply filter_In in Hr. destruct Hr as [_ Hr].
  apply negb_true_iff, str_eqb_neq in Hr. exact Hr.
Qed.

Lemma remove_outcome (self : RouteConfig.t) (name : str) (w : world) :
  outcome (RouteConfig.remove self name) w =
    Ok (if existsb (fun n => str_eqb n name)
             (map Route.name (RouteConfig.routes self))
        then RouteConfig.mk
               (filter (fun route => negb (str_eqb (Route.name route) name))
                  (RouteConfig.routes self))
        else self).
Proof.
  unfold RouteConfig.remove.
  destruct (existsb _ (map Route.name (RouteConfig.routes self))); reflexivity.
Qed.

(** X9.  [remove] never raises.  After it no route has the name: a
    lookup by that name fails with RouteNotFoundError, the lookup of
    any other name is as it was, and removing the name once more
    changes nothing. *)
Theorem remove_then_get (self : RouteConfig.t) (name : str) (w : world) :
  exists self',
    outcome (RouteConfig.remove self name) w = Ok self' /\
    RouteConfig.get self' name = Raise (RouteNotFoundError name) /\
    (forall other, other <> name ->
       RouteConfig.get self' other = RouteConfig.get self other) /\
    (forall w', outcome (RouteConfig.remove self' name) w' = Ok self').
Proof.
  eexists. split; [apply remove_outcome|].
  destruct (existsb _ (map Route.name (RouteConfig.routes self))) eqn:E.
  - split; [|split].
    + apply get_from_absent. apply filter_names_absent.
    + intros other Hne. apply get_from_filter_other. exact Hne.
    + intros w'. rewrite remove_outcome. cbn [RouteConfig.routes].
      replace (existsb _ (map Route.name (filter _ (RouteConfig.routes self))))
        with false; [reflexivity|].
      symmetry. apply names_absent. apply filter_names_absent.
  - split; [|split].
    + apply get_from_absent. apply names_absent. exact E.
    + reflexivity.
    + intros w'. rewrite remove_outcome, E. reflexivity.
Qed.

Lemma filter_absent (l : list Route.t) (name : str) :
  (forall r, In r l -> Route.name r <> name) ->
  filter (fun route => negb (str_eqb (Route.name route) name)) l = l.
Proof.
  induction l as [|x l IH]; intros Habs; [reflexivity|].
  cbn [filter].
  replace (str_eqb (Route.name x) name) with false
    by (symmetry; apply str_eqb_neq, Habs; left; reflexivity).
  cbn [negb]. rewrite IH; [reflexivity|].
  intros r Hr. apply Habs. right. exact Hr.
Qed.

(** X10.  Removing the name of a route just added leaves the routes
    of before without those of that name: the added route goes, and
    with it every older route of the same name.  When no other route
    had the name this undoes the addition: the routes are as before. *)
Theorem add_then_remove (self : RouteConfig.t) (route : Route.t) (w w' : world) :
  exists added left,
    outcome (RouteConfig.add self route) w = Ok added /\
    outcome (RouteConfig.remove added (Route.name route)) w'
      = Ok (RouteConfig.mk left) /\
    removed_all (Route.name route) (RouteConfig.routes self) left /\
    ((forall r, In r (RouteConfig.routes self) ->
                Route.name r <> Route.name route) ->
     RouteConfig.mk left = self).
Proof.
  exists (RouteConfig.mk (RouteConfig.routes self ++ [route])),
         (filter (fun r => negb (str_eqb (Route.name r) (Route.name route)))
                 (RouteConfig.routes self)).
  split; [reflexivity|]. split; [|split].
  - rewrite remove_outcome. cbn [RouteConfig.routes].
    replace (existsb (fun n => str_eqb n (Route.name route))
               (map Route.name (RouteConfig.routes self ++ [route]))) with true
      by (symmetry; rewrite map_app, existsb_app; cbn [map existsb];
          rewrite str_eqb_refl; apply orb_true_iff; right; reflexivity).
    rewrite filter_app. cbn [filter].
    rewrite str_eqb_refl. cbn [negb]. rewrite app_nil_r. reflexivity.
  - apply filter_removed_all.
  - intros Hfresh. rewrite (filter_absent _ _ Hfresh). destruct self. reflexivity.
Qed.

(** A route [c] added to routes [a] and [b], then removed; a second
    route [a] added to them, then the name [a] removed. *)
Lemma add_then_remove_witness :
  let self := RouteConfig.mk [Route.mk (py "a") [] None; Route.mk (py "b") [] None] in
  (exists added,
     outcome (RouteConfig.add self (Route.mk (py "c") [py "hi"] None)) empty_world
       = Ok added /\
     outcome (RouteConfig.remove added (py "c")) empty_world = Ok self) /\
  (exists added,
     outcome (RouteConfig.add self (Route.mk (py "a") [py "hi"] None)) empty_world
       = Ok added /\
     outcome (RouteConfig.remove added (py "a")) empty_world
       = Ok (RouteConfig.mk [Route.mk (py "b") [] None])).
Proof.
  intros self. split.
  - destruct (add_then_remove self (Route.mk (py "c") [py "hi"] None)
                empty_world empty_world)
      as (added & left & Hadd & Hremove & _ & Hfresh).
    exists added. split; [exact Hadd|].
    transitivity (Ok (RouteConfig.mk left)); [exact Hremove|].
    rewrite Hfresh; [reflexivity|].
    intros r [<- | [<- | []]]; discriminate.
  - destruct (add_then_remove self (Route.mk (py "a") [py "hi"] None)
                empty_world empty_world)
      as (added & left & Hadd & Hremove & _ & _).
    exists added. split; [exact Hadd|].
    vm_compute in Hadd. injection Hadd as <-. reflexivity.
Defined.

(** ** Objects that share a list *)

Lemma length_store (h : Objects.heap) (r : Objects.ref) (l : list Route.t) :
  List.length (Objects.store h r l) = List.length h.
Proof.
  revert r; induction h as [|x h IH]; intros [|r]; simpl; auto.
Qed.

Lemma deref_store_same (h : Objects.heap) (r : Objects.ref) (l : list Route.t) :
  r < List.length h -> Objects.deref (Objects.store h r l) r = l.
Proof.
  unfold Objects.deref. revert r; induction h as [|x h IH]; intros [|r] Hr;
    simpl in *; try lia; [reflexivity|]. apply IH. lia.
Qed.

Lemma deref_store_other (h : Objects.heap) (r r' : Objects.ref) (l : list Route.t) :
  r <> r' -> Objects.deref (Objects.store h r l) r' = Objects.deref h r'.
Proof.
  unfold Objects.deref. revert r r'; induction h as [|x h IH];
    intros [|r] [|r'] Hne; simpl; try reflexivity; try congruence.
  apply IH. congruence.
Qed.

Lemma deref_app_old (h : Objects.heap) (l : list Route.t) (r : Objects.ref) :
  r < List.length h -> Objects.deref (h ++ [l]) r = Objects.deref h r.
Proof. intros Hr. unfold Objects.deref. apply app_nth1. exact Hr. Qed.

Lemma deref_app_new (h : Objects.heap) (l : list Route.t) :
  Objects.deref (h ++ [l]) (List.length h) = l.
Proof. unfold Objects.deref. apply nth_middle. Qed.

(** X11.  [add] appends to the list the object holds, in place: every
    object that holds the same list sees the added route, among them
    every RouteConfig made with the default argument, and an object
    that holds another list sees what it saw. *)
Theorem add_is_shared (self other : Objects.t) (route : Route.t)
    (h : Objects.heap) (w : world) :
  Objects.routes self < List.length h ->
  exists h',
    outcome (Objects.add self route h) w = Ok h' /\
    Objects.view h' self
      = RouteConfig.mk (RouteConfig.routes (Objects.view h self) ++ [route]) /\
    (Objects.routes other = Objects.routes self ->
     Objects.view h' other
       = RouteConfig.mk (RouteConfig.routes (Objects.view h other) ++ [route])) /\
    (Objects.routes other <> Objects.routes self ->
     Objects.view h' other = Objects.view h other).
Proof.
  intros Hself. eexists. split; [reflexivity|].
  unfold Objects.view. cbn [RouteConfig.routes].
  split; [|split].
  - rewrite deref_store_same by exact Hself. reflexivity.
  - intros ->. rewrite deref_store_same by exact Hself. reflexivity.
  - intros Hne. rewrite deref_store_other by congruence. reflexivity.
Qed.

(** Two RouteConfig objects made without argument, in the heap the
    class starts with: a route added to the first is found in the
    second. *)
Lemma add_is_shared_witness :
  let first := Objects.__init__ None in
  let second := Objects.__init__ None in
  let route := Route.mk (py "greet") [py "hello"] None in
  exists h',
    outcome (Objects.add first route Objects.initial_heap) empty_world = Ok h' /\
    Objects.get second (py "greet") Objects.initial_heap
      = Raise (RouteNotFoundError (py "greet")) /\
    Objects.get second (py "greet") h' = Ok route.
Proof.
  intros first second route.
  destruct (add_is_shared first second route Objects.initial_heap empty_world)
    as (h' & Hadd & _ & Hshared & _).
  - cbv. lia.
  - exists h'. split; [exact Hadd|]. split; [reflexivity|].
    vm_compute in Hadd. injection Hadd as <-. reflexivity.
Defined.

(** X12.  [remove] of a name that is there binds the object to a new
    list and leaves the old list as it was: every other object, one
    that shared the list included, still sees the removed routes.  A
    [remove] of a name that is not there leaves object and heap as
    they were. *)
Theorem remove_rebinds (self other : Objects.t) (name : str)
    (h : Objects.heap) (w : world) :
  Objects.routes self < List.length h ->
  Objects.routes other < List.length h ->
  exists self' h',
    outcome (Objects.remove self name h) w = Ok (self', h') /\
    Objects.view h' other = Objects.view h other /\
    removed_all name (RouteConfig.routes (Objects.view h self))
      (RouteConfig.routes (Objects.view h' self')) /\
    ((exists r, In r (RouteConfig.routes (Objects.view h self)) /\
                Route.name r = name) ->
     Objects.routes self' <> Objects.routes other) /\
    ((forall r, In r (RouteConfig.routes (Objects.view h self)) ->
                Route.name r <> name) ->
     self' = self /\ h' = h).
Proof.
  intros Hself Hother. unfold Objects.remove.
  destruct (existsb _ (map Route.name (Objects.deref h (Objects.routes self))))
    eqn:E; cbn [negb].
  - eexists. eexists. split; [reflexivity|].
    unfold Objects.view. cbn [RouteConfig.routes Objects.routes].
    split; [|split; [|split]].
    + rewrite deref_app_old by exact Hother. reflexivity.
    + rewrite deref_app_new. apply filter_removed_all.
    + intros _. lia.
    + intros Habs. apply names_absent in Habs. congruence.
  - eexists. eexists. split; [reflexivity|].
    unfold Objects.view. cbn [RouteConfig.routes].
    split; [reflexivity|]. split; [|split].
    + rewrite <- (filter_absent (Objects.deref h (Objects.routes self)) name)
        at 2 by (apply names_absent; exact E).
      apply filter_removed_all.
    + intros (r & Hin & Hr). rewrite names_absent in E.
      exfalso. exact (E r Hin Hr).
    + auto.
Qed.

(** Two RouteConfig objects made without argument share the routes
    [a] and [b]; after the first removes [a], the second still finds
    it. *)
Lemma remove_rebinds_witness :
  let first := Objects.__init__ None in
  let second := Objects.__init__ None in
  let h := [[Route.mk (py "a") [] None; Route.mk (py "b") [] None]] in
  exists first' h',
    outcome (Objects.remove first (py "a") h) empty_world = Ok (first', h') /\
    Objects.get first' (py "a") h' = Raise (RouteNotFoundError (py "a")) /\
    Objects.get second (py "a") h' = Ok (Route.mk (py "a") [] None).
Proof.
  intros first second h.
  destruct (remove_rebinds first second (py "a") h empty_world)
    as (first' & h' & Hremove & Hsame & Hremoved & _ & _).
  - cbv. lia.
  - cbv. lia.
  - exists first', h'. split; [exact Hremove|].
    vm_compute in Hremove. injection Hremove as <- <-.
    split; reflexivity.
Defined.

(** ** Files *)


(** X14.  [from_file] opens the file before it looks at the extension:
    on a path where no file is, it fails with FileNotFoundError whatever
    the extension, the unsupported ones included, having logged that it
    loads. *)
Theorem from_file_missing (yaml_safe_load : str -> result pyval)
    (path : str) (w : world) :
  files w path = None ->
  outcome (RouteConfig.from_file yaml_safe_load path) w = Raise FileNotFoundError /\
  world_after (RouteConfig.from_file yaml_safe_load path) w
    = mkWorld (files w)
        (logs w ++ [(INFO, Text (py "Loading route config from " ++ path))])
        (write_error w).
Proof.
  intros Hfile. unfold RouteConfig.from_file. unfold_monad.
  cbn [files logs]. rewrite Hfile. split; reflexivity.
Qed.

(** No file at all, and a path with the extension [.txt]. *)
Lemma from_file_missing_witness :
  outcome (RouteConfig.from_file no_yaml_load (py "routes.txt")) empty_world
    = Raise FileNotFoundError.
Proof.
  apply (from_file_missing no_yaml_load (py "routes.txt") empty_world).
  reflexivity.
Defined.

(** X15.  [from_file] does not catch the decoder's error: on a [.json]
    file whose text is not JSON it raises JSONDecodeError, where
    [is_valid] on the same text answers invalid. *)
Theorem from_file_not_json (yaml_safe_load : str -> result pyval)
    (path content : str) (w : world) :
  files w path = Some content ->
  snd (Os_path.splitext path) = py ".json" ->
  Json.loads content = Raise JSONDecodeError ->
  outcome (RouteConfig.from_file yaml_safe_load path) w = Raise JSONDecodeError /\
  outcome (is_valid content) w = Ok false.
Proof.
  intros Hfile Hext Hload. split.
  - unfold RouteConfig.from_file. rewrite Hext, str_eqb_refl. unfold_monad.
    cbn [files logs]. rewrite Hfile, Hload. reflexivity.
  - apply is_valid_not_json. exact Hload.
Qed.

(** A file cut short in the middle of a list. *)
Lemma from_file_not_json_witness :
  outcome (RouteConfig.from_file no_yaml_load (py "routes.json"))
    (mkWorld (set_file (py "routes.json") (dq "[{'name': 'a',")
                (fun _ => None)) [] (fun _ => None))
    = Raise JSONDecodeError.
Proof.
  apply (from_file_not_json no_yaml_load (py "routes.json") (dq "[{'name': 'a',"));
    reflexivity.
Defined.

(** X16.  [to_file] opens the path for writing before it looks at the
    extension.  When the path cannot be opened, the call raises the
    error of [open], whatever the extension, and changes no file.
    When the path can be opened and the extension is not supported,
    the call raises UnsupportedFileTypeError and leaves the file at
    the path empty, whatever it held. *)
Theorem to_file_unsupported_empties (yaml_safe_dump : pyval -> str)
    (self : RouteConfig.t) (path : str) (w : world) :
  (forall e, write_error w path = Some e ->
     outcome (RouteConfig.to_file yaml_safe_dump self path) w = Raise e /\
     files (world_after (RouteConfig.to_file yaml_safe_dump self path) w)
       = files w) /\
  (write_error w path = None ->
   snd (Os_path.splitext path) <> py ".json" ->
   snd (Os_path.splitext path) <> py ".yaml" ->
   snd (Os_path.splitext path) <> py ".yml" ->
   outcome (RouteConfig.to_file yaml_safe_dump self path) w
     = Raise UnsupportedFileTypeError /\
   files (world_after (RouteConfig.to_file yaml_safe_dump self path) w) path
     = Some []).
Proof.
  split.
  - intros e Hopen. unfold RouteConfig.to_file. unfold_monad.
    cbn [files logs write_error]. rewrite Hopen. split; reflexivity.
  - intros Hopen H1 H2 H3. destruct (unsupported_branch _ H1 H2 H3) as [Ej Ey].
    unfold RouteConfig.to_file. rewrite Ej, Ey. unfold_monad.
    cbn [files logs write_error]. rewrite Hopen.
    cbn [fst snd files logs]. split; [reflexivity | apply set_file_same].
Qed.

(** A file of notes is lost to a save under its name; a save into a
    directory that is missing fails before anything is written. *)
Lemma to_file_unsupported_empties_witness :
  files (world_after
           (RouteConfig.to_file no_yaml_dump (RouteConfig.mk []) (py "notes.txt"))
           (mkWorld (set_file (py "notes.txt") (py "keep me") (fun _ => None)) []
              (fun _ => None)))
        (py "notes.txt")
    = Some [] /\
  outcome (RouteConfig.to_file no_yaml_dump (RouteConfig.mk [])
             (py "nodir/routes.json"))
    (missing_directory (py "nodir/routes.json")) = Raise FileNotFoundError.
Proof.
  split.
  - apply (proj2 (to_file_unsupported_empties no_yaml_dump (RouteConfig.mk [])
                    (py "notes.txt") _));
      [reflexivity | vm_compute; discriminate ..].
  - apply (proj1 (to_file_unsupported_empties no_yaml_dump (RouteConfig.mk [])
                    (py "nodir/routes.json")
                    (missing_directory (py "nodir/routes.json")))).
    reflexivity.
Defined.

Lemma set_file_other (path content : str) (fs : str -> option str) (p : str) :
  p <> path -> set_file path content fs p = fs p.
Proof.
  intros Hne. unfold set_file.
  replace (str_eqb p path) with false; [reflexivity|].
  symmetry. apply str_eqb_neq. exact Hne.
Qed.

Lemma keeps_files_bind {A B} (c : M A) (k : A -> M B) :
  keeps_files c -> (forall a, keeps_files (k a)) -> keeps_files (bind c k).
Proof.
  intros Hc Hk w. unfold world_after, bind. specialize (Hc w).
  unfold world_after in Hc. destruct (c w) as [[a|e] w']; cbn [snd] in *.
  - rewrite <- Hc. apply Hk.
  - exact Hc.
Qed.

Lemma keeps_files_lift {A} (r : result A) : keeps_files (lift r).
Proof. intros w. reflexivity. Qed.

Lemma keeps_files_ret {A} (a : A) : keeps_files (ret a).
Proof. intros w. reflexivity. Qed.

Lemma keeps_files_raise {A} (e : exn) : keeps_files (@raise A e).
Proof. intros w. reflexivity. Qed.

Lemma keeps_files_logger (l : level) (m : log_msg) : keeps_files (logger l m).
Proof. intros w. reflexivity. Qed.

Lemma keeps_files_open_read (path : str) : keeps_files (open_read path).
Proof. intros w. unfold world_after, open_read. destruct (files w path); reflexivity. Qed.

Lemma keeps_files_is_valid (route_config : str) : keeps_files (is_valid route_config).
Proof. intros w. apply is_valid_trace. Qed.

(** X17.  [from_file] writes no file: the files are after the call
    what they were before it, however the call ends.  [to_file] touches
    the file at its path and no other. *)
Theorem file_footprint (yaml_safe_load : str -> result pyval)
    (yaml_safe_dump : pyval -> str) (self : RouteConfig.t) (path : str)
    (w : world) :
  files (world_after (RouteConfig.from_file yaml_safe_load path) w) = files w /\
  (forall p, p <> path ->
     files (world_after (RouteConfig.to_file yaml_safe_dump self path) w) p
       = files w p).
Proof.
  split.
  - revert w. change (keeps_files (RouteConfig.from_file yaml_safe_load path)).
    unfold RouteConfig.from_file.
    repeat first
      [ apply keeps_files_bind; [|intros ?]
      | apply keeps_files_logger
      | apply keeps_files_open_read
      | apply keeps_files_is_valid
      | apply keeps_files_lift
      | apply keeps_files_ret
      | apply keeps_files_raise
      | match goal with
        | |- keeps_files (if ?b then _ else _) => destruct b
        end ].
  - intros p Hp. unfold RouteConfig.to_file. unfold_monad.
    cbn [files logs write_error].
    destruct (write_error w path); [reflexivity|].
    destruct (str_eqb (snd (Os_path.splitext path)) (py ".json"));
      [|destruct (existsb _ [py ".yaml"; py ".yml"])];
      cbn [fst snd files logs]; rewrite ?set_file_other by exact Hp; reflexivity.
Qed.

(** X18.  On a file that parses to a plain list of mappings,
    [from_file] fails with InvalidConfigError when some mapping lacks a
    required key, and otherwise builds the routes from the mappings one
    by one, in the order of the file: it returns them all, or raises
    what the first mapping that is no route raises. *)
Theorem from_file_list (yaml_safe_load : str -> result pyval)
    (path content : str) (items : list pyval) (w : world) :
  files w path = Some content ->
  (snd (Os_path.splitext path) = py ".json" /\
   Json.loads content = Ok (JList items)) \/
  ((snd (Os_path.splitext path) = py ".yaml" \/
    snd (Os_path.splitext path) = py ".yml") /\
   yaml_safe_load content = Ok (JList items)) ->
  plain (JList items) = true ->
  forallb is_mapping items = true ->
  outcome (RouteConfig.from_file yaml_safe_load path) w =
    if forallb has_required_keys items
    then match rmap Route.from_dict items with
         | Ok rs => Ok (RouteConfig.mk rs)
         | Raise e => Raise e
         end
    else Raise InvalidConfigError.
Proof.
  intros Hfile Hload Hplain Hmaps. unfold outcome at 1.
  rewrite (from_file_value yaml_safe_load path content _ w Hfile Hload).
  assert (Hvalid : forall w', outcome (is_valid (Json.dumps (JList items))) w'
                              = Ok (forallb has_required_keys items)).
  { intros w'. apply is_valid_list_of_mappings.
    - apply loads_dumps. exact Hplain.
    - intros x Hx. rewrite forallb_forall in Hmaps. specialize (Hmaps x Hx).
      destruct x; try discriminate. eauto. }
  match goal with
  | |- context [is_valid ?s ?w'] =>
      destruct (is_valid_outcome s w' _ (Hvalid w')) as [w'' ->]
  end.
  destruct (forallb has_required_keys items); [|reflexivity].
  cbn [py_iter rbind]. destruct (rmap Route.from_dict items); reflexivity.
Qed.

(** A hand-written file: white space, an extra key, a missing
    description, and numbers and a boolean where strings are
    declared, which become their [str]. *)
Lemma from_file_list_witness :
  outcome (RouteConfig.from_file no_yaml_load (py "routes.json"))
    (mkWorld
       (set_file (py "routes.json")
          (dq " [ {'utterances': ['hi', 1, true, 1.50], 'name': 'a', 'rank': 1},  {'name': 2, 'utterances': [], 'description': 'd'} ] ")
          (fun _ => None)) [] (fun _ => None))
    = Ok (RouteConfig.mk
            [Route.mk (py "a") [py "hi"; py "1"; py "True"; py "1.5"] None;
             Route.mk (py "2") [] (Some (py "d"))]).
Proof.
  rewrite (from_file_list no_yaml_load (py "routes.json")
             (dq " [ {'utterances': ['hi', 1, true, 1.50], 'name': 'a', 'rank': 1},  {'name': 2, 'utterances': [], 'description': 'd'} ] ")
             [JDict [(py "utterances",
                      JList [JString (py "hi"); JNumber (py "1"); JBool true;
                             JNumber (py "1.50")]);
                     (py "name", JString (py "a"));
                     (py "rank", JNumber (py "1"))];
              JDict [(py "name", JNumber (py "2"));
                     (py "utterances", JList []);
                     (py "description", JString (py "d"))]]).
  - vm_compute. reflexivity.
  - vm_compute. reflexivity.
  - left. split; vm_compute; reflexivity.
  - vm_compute. reflexivity.
  - vm_compute. reflexivity.
Defined.

(** ** The synthesis pipeline *)

(** [_agenerate_dynamic_route] once the completion has come back and
    the payload [config] has been cut out of it. *)
Lemma agenerate_value (chat_completion : schema -> option str)
    (function_schema : schema) (output config : str) (w : world) :
  chat_completion function_schema = Some output -> output <> [] ->
  Route._parse_route_config output = Ok config ->
  Route._agenerate_dynamic_route chat_completion function_schema w =
    match is_valid config
            (mkWorld (files w)
               ((logs w ++ [(INFO, Text (py "Generating dynamic route..."))])
                ++ [(INFO, Text (py "Generated route config:" ++ [10%N] ++ config))])
               (write_error w))
    with
    | (Ok true, w') => (rbind (Json.loads config) Route.from_dict, w')
    | (Ok false, w') => (Raise NoConfigError, w')
    | (Raise e, w') => (Raise e, w')
    end.
Proof.
  intros Hchat Hne Hcfg. unfold Route._agenerate_dynamic_route.
  rewrite Hchat. destruct output as [|c output]; [congruence|].
  unfold_monad. rewrite Hcfg. cbn [files logs].
  destruct (is_valid config _) as [[[|]|e] w']; reflexivity.
Qed.

Lemma search_none (text : str) : ~ tag_pair_occurs text -> Re.search text = None.
Proof.
  intros Hno. destruct (Re.search text) as [g|] eqn:E; [|reflexivity].
  exfalso. apply Hno. destruct (search_sound _ _ E) as (a & c & ->).
  exists a, g, c. reflexivity.
Qed.

(** X19.  The ways a synthesis attempt fails before a route is built:
    with [No output generated] when the completion is absent or empty;
    with MissingConfigTagsError when it holds no tag pair; with
    [No config generated] when the payload is not JSON, or is made of
    mappings one of which lacks a required key. *)
Theorem synthesis_failures (chat_completion : schema -> option str)
    (function_schema : schema) (w : world) :
  (chat_completion function_schema = None \/
   chat_completion function_schema = Some [] ->
   outcome (Route._agenerate_dynamic_route chat_completion function_schema) w
     = Raise EmptyCompletionError) /\
  (forall output,
     chat_completion function_schema = Some output -> output <> [] ->
     ~ tag_pair_occurs output ->
     outcome (Route._agenerate_dynamic_route chat_completion function_schema) w
       = Raise MissingConfigTagsError) /\
  (forall output config,
     chat_completion function_schema = Some output -> output <> [] ->
     Route._parse_route_config output = Ok config ->
     Json.loads config = Raise JSONDecodeError \/
     (exists v, Json.loads config = Ok v /\
                forallb is_mapping (items_of v) = true /\
                forallb has_required_keys (items_of v) = false) ->
     outcome (Route._agenerate_dynamic_route chat_completion function_schema) w
       = Raise NoConfigError).
Proof.
  split; [|split].
  - unfold Route._agenerate_dynamic_route. intros [-> | ->]; reflexivity.
  - intros output Hchat Hne Hno. unfold Route._agenerate_dynamic_route.
    rewrite Hchat. destruct output as [|c output]; [congruence|].
    unfold_monad. unfold Route._parse_route_config.
    rewrite (search_none _ Hno). reflexivity.
  - intros output config Hchat Hne Hcfg Hbad. unfold outcome.
    rewrite (agenerate_value _ _ _ _ w Hchat Hne Hcfg).
    match goal with
    | |- context [is_valid config ?w'] =>
        assert (Hinvalid : outcome (is_valid config) w' = Ok false)
    end.
    { destruct Hbad as [Hload | (v & Hload & Hmaps & Hkeys)].
      - apply is_valid_not_json. exact Hload.
      - destruct v as [| b | lit | x | l | d]; try discriminate.
        + rewrite (is_valid_list_of_mappings _ l _ Hload).
          * cbn [items_of] in Hkeys. rewrite Hkeys. reflexivity.
          * intros x Hx. cbn [items_of] in Hmaps.
            rewrite forallb_forall in Hmaps. specialize (Hmaps x Hx).
            destruct x; try discriminate. eauto.
        + rewrite (is_valid_mapping _ d _ Hload).
          cbn [items_of forallb] in Hkeys. rewrite andb_true_r in Hkeys.
          rewrite Hkeys. reflexivity. }
    destruct (is_valid_outcome _ _ _ Hinvalid) as [w' ->]. reflexivity.
Qed.

(** An empty completion, a completion without tags, a payload without
    [utterances]. *)
Lemma synthesis_failures_witness :
  outcome (Route._agenerate_dynamic_route (answers (Some [])) weather_schema)
    empty_world = Raise EmptyCompletionError /\
  outcome (Route._agenerate_dynamic_route
             (answers (Some (dq "{'name': 'get_weather'}"))) weather_schema)
    empty_world = Raise MissingConfigTagsError /\
  outcome (Route._agenerate_dynamic_route
             (answers (Some (dq "<config>{'name': 'get_weather'}</config>")))
             weather_schema)
    empty_world = Raise NoConfigError.
Proof.
  split; [|split].
  - apply (proj1 (synthesis_failures (answers (Some [])) weather_schema empty_world)).
    right. reflexivity.
  - apply (proj1 (proj2 (synthesis_failures
             (answers (Some (dq "{'name': 'get_weather'}"))) weather_schema
             empty_world)) (dq "{'name': 'get_weather'}")).
    + reflexivity.
    + discriminate.
    + intros H. apply search_complete in H. destruct H as [g H].
      vm_compute in H. discriminate.
  - apply (proj2 (proj2 (synthesis_failures
             (answers (Some (dq "<config>{'name': 'get_weather'}</config>")))
             weather_schema empty_world))
             (dq "<config>{'name': 'get_weather'}</config>")
             (dq "{'name': 'get_weather'}")).
    + reflexivity.
    + discriminate.
    + reflexivity.
    + right. eexists. split; [vm_compute; reflexivity|]. split; reflexivity.
Defined.

Lemma required_keys_mappings (items : list pyval) :
  forallb has_required_keys items = true ->
  forall x, In x items -> exists d, x = JDict d.
Proof.
  intros H x Hx. rewrite forallb_forall in H. specialize (H x Hx).
  destruct x; try discriminate. eauto.
Qed.

(** A payload that is one mapping with both keys: the result is what
    [Route.from_dict] makes of the mapping. *)
Lemma agenerate_mapping (chat_completion : schema -> option str)
    (function_schema : schema) (output config : str)
    (d : list (str * pyval)) (w : world) :
  chat_completion function_schema = Some output -> output <> [] ->
  Route._parse_route_config output = Ok config ->
  Json.loads config = Ok (JDict d) ->
  has_required_keys (JDict d) = true ->
  outcome (Route._agenerate_dynamic_route chat_completion function_schema) w
    = Route.from_dict (JDict d).
Proof.
  intros Hchat Hne Hcfg Hload Hkeys. unfold outcome.
  rewrite (agenerate_value _ _ _ _ w Hchat Hne Hcfg).
  match goal with
  | |- context [is_valid config ?w'] =>
      pose proof (is_valid_mapping _ d w' Hload) as Hvalid
  end.
  rewrite Hkeys in Hvalid.
  destruct (is_valid_outcome _ _ _ Hvalid) as [w' ->].
  rewrite Hload. reflexivity.
Qed.

(** X20.  The pipeline builds its route from the whole payload.  A
    payload that is one mapping with both keys passes validation and
    the result is what [Route.from_dict] makes of the mapping; a
    payload that is a list of such mappings passes validation too, and
    the attempt then fails with TypeError: no route comes out of a
    list. *)
Theorem synthesis_of_valid_payload (chat_completion : schema -> option str)
    (function_schema : schema) (output config : str) (w : world) :
  chat_completion function_schema = Some output -> output <> [] ->
  Route._parse_route_config output = Ok config ->
  (forall d, Json.loads config = Ok (JDict d) ->
     has_required_keys (JDict d) = true ->
     (forall w', outcome (is_valid config) w' = Ok true) /\
     outcome (Route._agenerate_dynamic_route chat_completion function_schema) w
       = Route.from_dict (JDict d)) /\
  (forall items, Json.loads config = Ok (JList items) ->
     forallb has_required_keys items = true ->
     (forall w', outcome (is_valid config) w' = Ok true) /\
     outcome (Route._agenerate_dynamic_route chat_completion function_schema) w
       = Raise TypeError).
Proof.
  intros Hchat Hne Hcfg. split.
  - intros d Hload Hkeys. split.
    + intros w'. rewrite (is_valid_mapping _ d w' Hload), Hkeys. reflexivity.
    + apply (agenerate_mapping _ _ output config); assumption.
  - intros items Hload Hkeys.
    assert (Hvalid : forall w', outcome (is_valid config) w' = Ok true).
    { intros w'.
      rewrite (is_valid_list_of_mappings _ items w' Hload
                 (required_keys_mappings items Hkeys)), Hkeys.
      reflexivity. }
    split; [exact Hvalid|]. unfold outcome.
    rewrite (agenerate_value _ _ _ _ w Hchat Hne Hcfg).
    match goal with
    | |- context [is_valid config ?w'] =>
        destruct (is_valid_outcome _ _ _ (Hvalid w')) as [w'' ->]
    end.
    rewrite Hload. reflexivity.
Qed.

(** A completion whose payload is a list of one route, and one whose
    payload is a mapping with a number for a name, which becomes the
    name [1]. *)
Lemma synthesis_of_valid_payload_witness :
  outcome (Route._agenerate_dynamic_route
             (answers (Some (dq "<config>[{'name': 'a', 'utterances': ['hi']}]</config>")))
             weather_schema)
    empty_world = Raise TypeError /\
  outcome (Route._agenerate_dynamic_route
             (answers (Some (dq "<config>{'name': 1, 'utterances': []}</config>")))
             weather_schema)
    empty_world = Ok (Route.mk (py "1") [] None).
Proof.
  split.
  - apply (proj2 (synthesis_of_valid_payload
             (answers (Some (dq "<config>[{'name': 'a', 'utterances': ['hi']}]</config>")))
             weather_schema
             (dq "<config>[{'name': 'a', 'utterances': ['hi']}]</config>")
             (dq "[{'name': 'a', 'utterances': ['hi']}]")
             empty_world eq_refl ltac:(discriminate) eq_refl)
           [JDict [(py "name", JString (py "a"));
                   (py "utterances", JList [JString (py "hi")])]]);
      reflexivity.
  - rewrite (proj2 (proj1 (synthesis_of_valid_payload
             (answers (Some (dq "<config>{'name': 1, 'utterances': []}</config>")))
             weather_schema
             (dq "<config>{'name': 1, 'utterances': []}</config>")
             (dq "{'name': 1, 'utterances': []}")
             empty_world eq_refl ltac:(discriminate) eq_refl)
           [(py "name", JNumber (py "1")); (py "utterances", JList [])]
           eq_refl eq_refl)).
    reflexivity.
Defined.

Lemma rstrip_fixed (s : str) (e : N) :
  isspace e = false -> rstrip (s ++ [e]) = s ++ [e].
Proof.
  intros He. unfold rstrip. rewrite rev_app_distr.
  change (rev [e] ++ rev s) with (e :: rev s).
  cbn [lstrip]. rewrite He.
  change (rev (e :: rev s)) with (rev (rev s) ++ [e]).
  rewrite rev_involutive. reflexivity.
Qed.

Lemma strip_fixed (c e : N) (m : str) :
  isspace c = false -> isspace e = false ->
  strip (c :: m ++ [e]) = c :: m ++ [e].
Proof.
  intros Hc He. unfold strip. cbn [lstrip]. rewrite Hc.
  apply (rstrip_fixed (c :: m) e He).
Qed.

(** X21.  The pipeline reads back a route written as JSON: when the
    completion holds, after any text without opening tag, the tags
    around the text [json.dumps] writes for [route.to_dict()], the
    attempt returns that route, whatever follows the closing tag.  In
    the strings of the route no high surrogate stands directly before
    a low one, and the JSON text of the route holds no closing tag. *)
Theorem synthesis_reads_route (function_schema : schema) (route : Route.t)
    (before rest : str) (w : world) :
  route_is_text route = true ->
  contains Re.close_tag (Json.dumps (Route.to_dict route)) = false ->
  contains Re.open_tag before = false ->
  outcome (Route._agenerate_dynamic_route
             (answers (Some (before ++ Re.open_tag
                             ++ Json.dumps (Route.to_dict route)
                             ++ Re.close_tag ++ rest)))
             function_schema) w
    = Ok route.
Proof.
  intros Htext Hclose Hopen.
  assert (Hcfg : Route._parse_route_config
                   (before ++ Re.open_tag ++ Json.dumps (Route.to_dict route)
                    ++ Re.close_tag ++ rest)
                 = Ok (Json.dumps (Route.to_dict route))).
  { unfold Route._parse_route_config.
    rewrite (search_first before _ rest Hopen Hclose). f_equal.
    unfold Route.to_dict. cbn [Json.dumps]. apply strip_fixed; reflexivity. }
  unfold Route.to_dict in *.
  rewrite (agenerate_mapping
             (answers (Some (before ++ Re.open_tag ++ _ ++ Re.close_tag ++ rest)))
             function_schema _ _ _ w eq_refl
             ltac:(rewrite open_tag_chars; destruct before; discriminate) Hcfg
             (loads_dumps _ (plain_route _ Htext)) eq_refl).
  apply from_dict_to_dict.
Qed.

(** The route [get_weather] in a chatty completion. *)
Lemma synthesis_reads_route_witness :
  outcome (Route._agenerate_dynamic_route
             (answers (Some (py "Here it is: <config>"
                             ++ dq "{'name': 'get_weather', 'utterances': ['rain?'], 'description': null}"
                             ++ py "</config> Anything else?")))
             weather_schema) empty_world
    = Ok (Route.mk (py "get_weather") [py "rain?"] None).
Proof.
  apply (synthesis_reads_route weather_schema
           (Route.mk (py "get_weather") [py "rain?"] None)
           (py "Here it is: ") (py " Anything else?") empty_world);
    reflexivity.
Defined.

(** ** The schema of an entity *)

Lemma rmap_ok {A B} (f : A -> result B) (l : list A) :
  (forall x, In x l -> exists y, f x = Ok y) <-> exists ys, rmap f l = Ok ys.
Proof.
  induction l as [|x l IH]; cbn [rmap].
  - split; [eauto | intros _ x []].
  - split.
    + intros Hall. destruct (Hall x (or_introl eq_refl)) as [y ->].
      destruct (proj1 IH (fun z Hz => Hall z (or_intror Hz))) as [ys ->].
      cbn [rbind]. eauto.
    + intros [ys Hys] z [<- | Hz].
      * destruct (f x); [eauto | discriminate].
      * destruct (f x); [|discriminate]. cbn [rbind] in Hys.
        destruct (rmap f l) as [ys'|]; [|discriminate].
        apply (proj2 IH); eauto.
Qed.

Lemma rmap_raise {A B} (f : A -> result B) (l : list A) (e : exn) :
  rmap f l = Raise e -> exists x, In x l /\ f x = Raise e.
Proof.
  induction l as [|x l IH]; cbn [rmap]; [discriminate|].
  destruct (f x) as [y|e'] eqn:E; cbn [rbind].
  - destruct (rmap f l) as [ys|e'']; cbn [rbind]; [discriminate|].
    intros [= <-]. destruct (IH eq_refl) as (z & Hz & Hfz).
    exists z. split; [right; exact Hz | exact Hfz].
  - intros [= <-]. exists x. split; [left; reflexivity | exact E].
Qed.

Lemma rmap_length {A B} (f : A -> result B) (l : list A) (ys : list B) :
  rmap f l = Ok ys -> List.length ys = List.length l.
Proof.
  revert ys. induction l as [|x l IH]; cbn [rmap]; intros ys.
  - intros [= <-]. reflexivity.
  - destruct (f x); cbn [rbind]; [|discriminate].
    destruct (rmap f l) as [ys'|]; cbn [rbind]; [|discriminate].
    intros [= <-]. cbn [List.length]. rewrite (IH ys' eq_refl). reflexivity.
Qed.

(** X22.  [_get_schema] on a model succeeds exactly when every
    annotated field has an entry in [__fields__] and an annotation
    with a [__name__]; when it does not it raises KeyError or
    AttributeError and nothing else.  The schema of a model carries
    the class's name and docstring, no [output] key, and a signature
    of one part for each annotated field, between [(] and [) -> str]. *)
Theorem get_schema_of_model (m : model_instance) :
  ((forall field_name field_model,
      In (field_name, field_model) (annotations m) ->
      Route.dict_get_obj field_name (fields m) <> None /\
      dunder_name field_model <> None)
   <-> exists s, Route._get_schema (Model m) = Ok s) /\
  (forall e, Route._get_schema (Model m) = Raise e ->
             e = KeyError \/ e = AttributeError) /\
  (forall s, Route._get_schema (Model m) = Ok s ->
     schema_name s = class_name m /\
     schema_description s = class_doc m /\
     output s = None /\
     exists signature_parts,
       List.length signature_parts = List.length (annotations m) /\
       signature s = py "(" ++ join (py ", ") signature_parts ++ py ") -> str").
Proof.
  cbn [Route._get_schema]. split; [|split].
  - split.
    + intros Hall.
      destruct (proj1 (rmap_ok (Route.signature_part m) (annotations m)))
        as [parts ->]; [|cbn [rbind]; eauto].
      intros [field_name field_model] Hin.
      destruct (Hall _ _ Hin) as [Hfield Hname].
      unfold Route.signature_part.
      destruct (Route.dict_get_obj field_name (fields m)); [|congruence].
      destruct (dunder_name field_model); [|congruence].
      destruct (truthy p); eauto.
    + intros [s Hs] field_name field_model Hin.
      destruct (rmap (Route.signature_part m) (annotations m)) as [parts|] eqn:E;
        [|discriminate].
      destruct (proj2 (rmap_ok (Route.signature_part m) (annotations m))
                  (ex_intro _ parts E) _ Hin) as [y Hy].
      unfold Route.signature_part in Hy.
      destruct (Route.dict_get_obj field_name (fields m)); [|discriminate].
      destruct (dunder_name field_model); [|discriminate].
      split; discriminate.
  - intros e He.
    destruct (rmap (Route.signature_part m) (annotations m)) as [parts|e'] eqn:E;
      [discriminate|].
    cbn [rbind] in He. injection He as <-.
    destruct (rmap_raise _ _ _ E) as ([field_name field_model] & _ & Hpart).
    unfold Route.signature_part in Hpart.
    destruct (Route.dict_get_obj field_name (fields m)) as [d|];
      [|left; congruence].
    destruct (dunder_name field_model); [|right; congruence].
    destruct (truthy d); discriminate.
  - intros s Hs.
    destruct (rmap (Route.signature_part m) (annotations m)) as [parts|] eqn:E;
      [|discriminate].
    cbn [rbind] in Hs. injection Hs as <-. cbn.
    repeat split. exists parts. split; [|reflexivity].
    apply (rmap_length _ _ _ E).
Qed.

(** ** What a synthesis leaves behind *)

Lemma keeps_files_agenerate (chat_completion : schema -> option str)
    (function_schema : schema) :
  keeps_files (Route._agenerate_dynamic_route chat_completion function_schema).
Proof.
  unfold Route._agenerate_dynamic_route.
  apply keeps_files_bind; [apply keeps_files_logger|]. intros _.
  destruct (chat_completion function_schema) as [[|c output]|];
    try apply keeps_files_raise.
  apply keeps_files_bind; [apply keeps_files_lift|]. intros route_config.
  apply keeps_files_bind; [apply keeps_files_logger|]. intros _.
  apply keeps_files_bind; [apply keeps_files_is_valid|]. intros [|].
  - apply keeps_files_lift.
  - apply keeps_files_raise.
Qed.

(** X23.  [from_dynamic_route] writes no file.  When the schema of
    the entity cannot be built it raises what [_get_schema] raises and
    logs nothing: no request goes out.  When the schema is built, the
    record [Generating dynamic route...] is logged first, followed by
    at most two more records, however the attempt ends. *)
Theorem synthesis_footprint (chat_completion : schema -> option str)
    (item : entity) (w : world) :
  files (world_after (Route.from_dynamic_route chat_completion item) w)
    = files w /\
  (forall e, Route._get_schema item = Raise e ->
     Route.from_dynamic_route chat_completion item w = (Raise e, w)) /\
  (forall s, Route._get_schema item = Ok s ->
     exists more,
       logs (world_after (Route.from_dynamic_route chat_completion item) w)
         = logs w ++ (INFO, Text (py "Generating dynamic route...")) :: more /\
       List.length more <= 2).
Proof.
  split; [|split].
  - revert w. change (keeps_files (Route.from_dynamic_route chat_completion item)).
    unfold Route.from_dynamic_route.
    apply keeps_files_bind; [apply keeps_files_lift|]. intros s.
    apply keeps_files_agenerate.
  - intros e He. unfold Route.from_dynamic_route. unfold_monad.
    rewrite He. reflexivity.
  - intros s Hs. unfold Route.from_dynamic_route, world_after.
    unfold bind at 1. unfold lift at 1. rewrite Hs.
    unfold Route._agenerate_dynamic_route.
    destruct (chat_completion s) as [[|c output]|] eqn:Hchat.
    + exists []. split; [reflexivity | cbn; lia].
    + unfold_monad.
      destruct (Route._parse_route_config (c :: output)) as [route_config|e].
      * cbn [fst snd files logs].
        match goal with
        | |- context [is_valid route_config ?w'] =>
            destruct (is_valid_trace route_config w') as (_ & extra & Hlogs & Hextra);
            unfold world_after, outcome in Hlogs, Hextra;
            destruct (is_valid route_config w') as [[[|]|e] w'']
        end; cbn [fst snd logs] in *; rewrite Hlogs, <- !app_assoc;
          eexists; (split; [reflexivity|]); cbn [List.length app];
          rewrite ?length_app; try subst extra; cbn [List.length]; lia.
      * exists []. split; [reflexivity | cbn; lia].
    + exists []. split; [reflexivity | cbn; lia].
Qed.
